(** * Weather logger and analyzer: a shallow embedding and its properties

    The development follows [weather_logger.py] and [weather_scheduler.py].
    A log entry is the dictionary built by [fetch_weather_data]; the JSON
    data file, the network and the console are an explicit world that the
    methods of [WeatherLogger] read and update through a small state and
    exception monad. *)

From Stdlib Require Import List String Ascii Bool Arith ZArith QArith Lia.
From Stdlib Require Import Qround Permutation Sorted Lqa.
Import ListNotations.

Open Scope Z_scope.

(* ================================================================== *)
(** ** Data *)

(** Instants.  A [datetime] is counted in microseconds, its resolution;
    the ISO strings kept in the file stand for the instants they denote. *)
Definition datetime := Z.

Definition timedelta (hours : Z) : Z := hours * 3600 * 1000000.

(** One dictionary of the log, with the six keys [fetch_weather_data]
    gives it.  Temperatures are exact rationals: the rounding error of
    binary floating point arithmetic is not part of the model. *)
Record entry : Type := mkEntry {
  city : string;
  temperature : Q;
  description : string;
  humidity : Z;
  utc_timestamp : datetime;
  local_timestamp : datetime
}.

(** [str.lower], on the ASCII letters. *)
Definition lower_char (a : ascii) : ascii :=
  let n := nat_of_ascii a in
  if ((65 <=? n) && (n <=? 90))%nat then ascii_of_nat (n + 32) else a.

Fixpoint lower (s : string) : string :=
  match s with
  | EmptyString => EmptyString
  | String a rest => String (lower_char a) (lower rest)
  end.

(** [entry['city'].lower() == city.lower()] *)
Definition same_city (cname : string) (e : entry) : bool :=
  (lower (city e) =? lower cname)%string.

(* ================================================================== *)
(** ** The recency check *)

(** The loop of [is_duplicate_entry] over [reversed(data)]. *)
Fixpoint recent_scan (two_hours_ago : datetime) (cname : string)
    (entries : list entry) : bool :=
  match entries with
  | [] => false
  | e :: rest =>
      if same_city cname e then
        if two_hours_ago <? local_timestamp e then true
        else recent_scan two_hours_ago cname rest
      else recent_scan two_hours_ago cname rest
  end.

(** [is_duplicate_entry(city, data)], with the clock reading
    [datetime.now()] given as [current_time]. *)
Definition is_duplicate_entry (current_time : datetime) (cname : string)
    (data : list entry) : bool :=
  match data with
  | [] => false
  | _ =>
      let two_hours_ago := current_time - timedelta 2 in
      recent_scan two_hours_ago cname (rev data)
  end.

(** The width of the recency window. *)
Definition window : Z := timedelta 2.


(* ================================================================== *)
(** ** Number formatting and the built-in reductions *)

Definition Qltb (x y : Q) : bool := negb (Qle_bool y x).

(** Rounding to the nearest integer, a tie going to the even neighbour. *)
Definition round_half_even (x : Q) : Z :=
  let f := Qfloor x in
  match (x - inject_Z f ?= 1 # 2)%Q with
  | Lt => f
  | Gt => f + 1
  | Eq => if Z.even f then f else f + 1
  end.

(** The text [f"{x:.1f}"], held as its number of tenths. *)
Definition format_1f (x : Q) : Z := round_half_even (x * 10).

(** [sum(temps)] *)
Definition py_sum (temps : list Q) : Q := fold_left Qplus temps 0%Q.

(** The scan of [max(items, key=...)]: a later item replaces the best one
    only when its key is strictly greater. *)
Definition max_from {A : Type} (key : A -> Q) (first : A) (rest : list A) : A :=
  fold_left (fun best x => if Qltb (key best) (key x) then x else best) rest first.

(** The scan of [min(items, key=...)]. *)
Definition min_from {A : Type} (key : A -> Q) (first : A) (rest : list A) : A :=
  fold_left (fun best x => if Qltb (key x) (key best) then x else best) rest first.

(** [data[-n:]] *)
Definition last_n {A : Type} (n : nat) (l : list A) : list A :=
  skipn (List.length l - n) l.


(** [s.replace(' ', '_')] *)
Fixpoint replace_spaces (s : string) : string :=
  match s with
  | EmptyString => EmptyString
  | String a rest =>
      String (if Ascii.eqb a " "%char then "_"%char else a) (replace_spaces rest)
  end.

(** [list.sort(key=...)] is stable; insertion from the right, placing an
    element before the first one whose key is not smaller, is the stable
    sort of the list. *)
Fixpoint insert_by {A : Type} (key : A -> Z) (x : A) (l : list A) : list A :=
  match l with
  | [] => [x]
  | y :: rest =>
      if key x <=? key y then x :: y :: rest
      else y :: insert_by key x rest
  end.

Fixpoint sort_by {A : Type} (key : A -> Z) (l : list A) : list A :=
  match l with
  | [] => []
  | x :: rest => insert_by key x (sort_by key rest)
  end.

(* ================================================================== *)
(** ** The world: data file, network, console *)

(** The exceptions the modelled calls raise; all are subclasses of
    [Exception].  Cancellation and interrupts, which are not, stay outside
    the model. *)
Inductive exn : Type :=
| OSError | UnicodeDecodeError | JSONDecodeError
| ClientError | TimeoutError | ContentTypeError
| KeyError | IndexError | ValueError.

Definition Exception (e : exn) : bool := true.

Definition is_JSONDecodeError (e : exn) : bool :=
  match e with JSONDecodeError => true | _ => false end.

(** The data file [weather_data.json].  A file holding JSON that is no
    list of entries is outside the model: [load_data] is declared to return
    [List[Dict[str, Any]]] and [save_data] writes nothing else. *)
Inductive file_state : Type :=
| Absent                      (* [os.path.exists] is false *)
| Unopenable                  (* exists, [open] raises [OSError] *)
| Undecodable                 (* bytes that are no text in the file encoding *)
| NotJSON                     (* text that [json.load] rejects *)
| Stored (log : list entry).  (* the list written by [json.dump] *)

(** The body of a response, as far as [fetch_weather_data] looks into it:
    [data['main']], [data['weather']] and the keys read below them. *)
Record main_block : Type := mkMain {
  m_temp : option Q;
  m_humidity : option Z
}.

Record weather_item : Type := mkItem {
  w_description : option string
}.

Record payload : Type := mkPayload {
  p_main : option main_block;
  p_weather : option (list weather_item)
}.

Inductive http_reply : Type :=
| Refused (e : exn)                            (* [session.get] raises *)
| Response (status : Z) (body : exn + payload). (* [response.json()] raises or gives the body *)

(** A row of the table of [view_all_logs]. *)
Record log_row : Type := mkLogRow {
  lr_city : string;
  lr_temperature : Z;        (* tenths, [:.1f] *)
  lr_description : string;
  lr_humidity : Z;
  lr_minute : Z              (* [strftime('%Y-%m-%d %H:%M')] *)
}.

(** A row of the table of [get_city_averages]:
    [[city, f"{avg_temp:.1f}°C", count]]. *)
Record avg_row : Type := mkAvgRow {
  ar_city : string;
  ar_average : Z;            (* tenths, [:.1f] *)
  ar_count : nat
}.

(** What is printed or drawn. *)
Inductive msg : Type :=
| FetchingFor (cities : list string)
| ErrorFetchingHTTP (cname : string) (status : Z)
| ErrorFetching (cname : string) (e : exn)
| Skipping (cname : string)
| Logged (cname : string) (temp : Q) (descr : string)
| ErrorResult (e : exn)
| TotalEntries (n : nat)
| NoNewData
| CorruptedWarning
| NoWeatherData
| RecentLogs (rows : list log_row) (total : nat)
| CityAverages (rows : list avg_row)
| Extremes (hottest_overall coldest_overall hottest_24h coldest_24h : string * Z)
| NoDataFor (cname : string)
| Plot (title : string) (dates : list datetime) (temperatures : list Q)
| PlotSaved (filename : string)
| ScheduledFetch (at_time : datetime).

Record world : Type := mkWorld {
  file : file_state;
  saves : list (list entry);  (* the lists written to the data file so far *)
  requests : list string;     (* cities asked from the API so far *)
  output : list msg
}.

(** What the surroundings answer during one operation: the clock as the
    recency and 24-hour checks read it, taken as one instant since the loop
    that reads it never suspends, and for the i-th request sent to the API
    its reply and the two clock readings taken when it is accepted. *)
Record env : Type := mkEnv {
  now : datetime;
  reply : nat -> http_reply;
  accepted_utc : nat -> datetime;
  accepted_local : nat -> datetime
}.

(* ================================================================== *)
(** ** Computations *)

Inductive result (A : Type) : Type :=
| Ok (a : A) (w : world)
| Raise (e : exn) (w : world).
Arguments Ok {A} a w.
Arguments Raise {A} e w.

Definition M (A : Type) : Type := world -> result A.

Definition ret {A : Type} (a : A) : M A := fun w => Ok a w.

Definition bind {A B : Type} (m : M A) (k : A -> M B) : M B :=
  fun w => match m w with
           | Ok a w' => k a w'
           | Raise e w' => Raise e w'
           end.

Definition raise {A : Type} (e : exn) : M A := fun w => Raise e w.

(** [try: m  except cls as e: handler e] *)
Definition try_except {A : Type} (m : M A) (cls : exn -> bool)
    (handler : exn -> M A) : M A :=
  fun w => match m w with
           | Ok a w' => Ok a w'
           | Raise e w' => if cls e then handler e w' else Raise e w'
           end.

Declare Scope monad_scope.
Delimit Scope monad_scope with monad.
Notation "x <- m ;; k" := (bind m (fun x => k))
  (at level 61, m at next level, right associativity) : monad_scope.
Notation "m ;; k" := (bind m (fun _ => k))
  (at level 61, right associativity) : monad_scope.
Open Scope monad_scope.

Definition say (w : world) (ms : list msg) : world :=
  mkWorld (file w) (saves w) (requests w) (output w ++ ms).

Definition print (m : msg) : M unit := fun w => Ok tt (say w [m]).

(** [x[key]] on a mapping or list that may lack the item. *)
Definition getitem {A : Type} (e : exn) (o : option A) : M A :=
  match o with
  | Some a => ret a
  | None => raise e
  end.

(* ================================================================== *)
(** ** The store *)

(** [os.path.exists(self.data_file)] *)
Definition exists_file : M bool :=
  fun w => Ok (match file w with Absent => false | _ => true end) w.

(** [with open(self.data_file, 'r') as f: return json.load(f)] *)
Definition json_load : M (list entry) :=
  fun w => match file w with
           | Absent | Unopenable => Raise OSError w
           | Undecodable => Raise UnicodeDecodeError w
           | NotJSON => Raise JSONDecodeError w
           | Stored log => Ok log w
           end.

Definition load_data : M (list entry) :=
  present <- exists_file ;;
  if present : bool then
    try_except json_load is_JSONDecodeError
      (fun _ => print CorruptedWarning ;; ret [])
  else ret [].

(** [json.dump(data, f)] into the file opened for writing; the write is
    taken to succeed. *)
Definition save_data (data : list entry) : M unit :=
  fun w => Ok tt (mkWorld (Stored data) (saves w ++ [data]) (requests w) (output w)).

Definition to_log_row (e : entry) : log_row :=
  mkLogRow (city e) (format_1f (temperature e)) (description e) (humidity e)
           (local_timestamp e / 60000000).

Definition truthy (s : string) : bool :=
  match s with EmptyString => false | _ => true end.

Definition view_all_logs (cname : option string) : M unit :=
  data <- load_data ;;
  match data with
  | [] => print NoWeatherData
  | _ =>
      let shown (e : entry) :=
        match cname with
        | Some c => truthy c && (city e =? c)%string
        | None => false
        end in
      let table_data := map to_log_row (filter shown (last_n 20 data)) in
      print (RecentLogs table_data (List.length data))
  end.

(* ================================================================== *)
(** ** Fetching *)

Section WeatherLogger.

Variable E : env.

(** [session.get(...)]: the request goes out; its number and the answer. *)
Definition session_get (cname : string) : M (nat * http_reply) :=
  fun w => let i := List.length (requests w) in
           Ok (i, reply E i)
              (mkWorld (file w) (saves w) (requests w ++ [cname]) (output w)).

(** [await response.json()] *)
Definition response_json (body : exn + payload) : M payload :=
  match body with
  | inl e => raise e
  | inr data => ret data
  end.

Definition fetch_weather_data (cname : string) : M (option entry) :=
  try_except
    (r <- session_get cname ;;
     match snd r with
     | Refused e => raise e
     | Response status body =>
         if status =? 200 then
           data <- response_json body ;;
           main <- getitem KeyError (p_main data) ;;
           temp <- getitem KeyError (m_temp main) ;;
           weather <- getitem KeyError (p_weather data) ;;
           first <- getitem IndexError (nth_error weather 0) ;;
           descr <- getitem KeyError (w_description first) ;;
           hum <- getitem KeyError (m_humidity main) ;;
           ret (Some (mkEntry cname temp descr hum
                              (accepted_utc E (fst r)) (accepted_local E (fst r))))
         else
           print (ErrorFetchingHTTP cname status) ;;
           ret None
     end)
    Exception
    (fun e => print (ErrorFetching cname e) ;; ret None).

(** What [asyncio.gather(..., return_exceptions=True)] puts in its list
    for one task. *)
Inductive gathered : Type :=
| Value (v : option entry)
| Exc (e : exn).

(** The tasks are run one after the other in the order of the list: the
    results come in that order under every schedule of the event loop, and
    with [return_exceptions=True] an exception of a task becomes its
    result. *)
Fixpoint gather (tasks : list (M (option entry))) : M (list gathered) :=
  match tasks with
  | [] => ret []
  | task :: rest =>
      r <- try_except (v <- task ;; ret (Value v)) Exception (fun e => ret (Exc e)) ;;
      results <- gather rest ;;
      ret (r :: results)
  end.

(** The first loop of [fetch_and_log_weather]. *)
Fixpoint collect_tasks (force_update : bool) (data : list entry)
    (cities : list string) : M (list (M (option entry))) :=
  match cities with
  | [] => ret []
  | cname :: rest =>
      if force_update || negb (is_duplicate_entry (now E) cname data) then
        tasks <- collect_tasks force_update data rest ;;
        ret (fetch_weather_data cname :: tasks)
      else
        print (Skipping cname) ;;
        collect_tasks force_update data rest
  end.

(** The loop over the results; [data] is the list being appended to. *)
Fixpoint log_results (data : list entry) (results : list gathered)
    : M (list entry) :=
  match results with
  | [] => ret data
  | Value (Some r) :: rest =>
      print (Logged (city r) (temperature r) (description r)) ;;
      view_all_logs (Some (city r)) ;;
      log_results (data ++ [r]) rest
  | Exc e :: rest =>
      print (ErrorResult e) ;;
      log_results data rest
  | Value None :: rest =>
      log_results data rest
  end.

Definition fetch_and_log_weather (cities : list string) (force_update : bool)
    : M unit :=
  print (FetchingFor cities) ;;
  data <- load_data ;;
  tasks <- collect_tasks force_update data cities ;;
  match tasks with
  | [] => print NoNewData
  | _ =>
      results <- gather tasks ;;
      data' <- log_results data results ;;
      save_data data' ;;
      print (TotalEntries (List.length data'))
  end.

(** [WeatherScheduler.scheduled_fetch] *)
Definition scheduled_fetch (cities : list string) : M unit :=
  print (ScheduledFetch (now E)) ;;
  fetch_and_log_weather cities true.

(* ================================================================== *)
(** ** Analytics *)

(** [city_data[city].append(temp)], the key being added at the end of the
    dictionary when it is new. *)
Fixpoint dict_append (k : string) (v : Q) (d : list (string * list Q))
    : list (string * list Q) :=
  match d with
  | [] => [(k, [v])]
  | (k', vs) :: rest =>
      if (k' =? k)%string then (k', vs ++ [v]) :: rest
      else (k', vs) :: dict_append k v rest
  end.

Definition group_by_city (data : list entry) : list (string * list Q) :=
  fold_left (fun d e => dict_append (city e) (temperature e) d) data [].

Definition average_row (kv : string * list Q) : avg_row :=
  let temps := snd kv in
  let avg_temp := (py_sum temps / inject_Z (Z.of_nat (List.length temps)))%Q in
  mkAvgRow (fst kv) (format_1f avg_temp) (List.length temps).

(** The list [averages] after [averages.sort(...)]. *)
Definition city_averages (data : list entry) : list avg_row :=
  sort_by ar_average (map average_row (group_by_city data)).

Definition get_city_averages : M unit :=
  data <- load_data ;;
  match data with
  | [] => print NoWeatherData
  | _ => print (CityAverages (city_averages data))
  end.

(** [max(items, key=lambda x: x[1])] and [min], which raise on an empty list. *)
Definition py_max (items : list (string * Q)) : M (string * Q) :=
  match items with
  | [] => raise ValueError
  | x :: rest => ret (max_from snd x rest)
  end.

Definition py_min (items : list (string * Q)) : M (string * Q) :=
  match items with
  | [] => raise ValueError
  | x :: rest => ret (min_from snd x rest)
  end.

Definition city_temp (e : entry) : string * Q := (city e, temperature e).

Definition shown_1f (x : string * Q) : string * Z := (fst x, format_1f (snd x)).

Definition get_extremes : M unit :=
  data <- load_data ;;
  match data with
  | [] => print NoWeatherData
  | _ =>
      let all_temps := map city_temp data in
      hottest_overall <- py_max all_temps ;;
      coldest_overall <- py_min all_temps ;;
      let one_day_ago := now E - timedelta 24 in
      let recent_data :=
        map city_temp (filter (fun e => one_day_ago <? local_timestamp e) data) in
      last_day <-
        match recent_data with
        | [] => ret (("No data"%string, 0%Q), ("No data"%string, 0%Q))
        | _ =>
            hottest_24h <- py_max recent_data ;;
            coldest_24h <- py_min recent_data ;;
            ret (hottest_24h, coldest_24h)
        end ;;
      print (Extremes (shown_1f hottest_overall) (shown_1f coldest_overall)
                      (shown_1f (fst last_day)) (shown_1f (snd last_day)))
  end.

Definition plot_temperature_trend (cname : string) : M unit :=
  data <- load_data ;;
  match data with
  | [] => print NoWeatherData
  | _ =>
      let city_data := filter (same_city cname) data in
      match city_data with
      | [] => print (NoDataFor cname)
      | _ =>
          let dates := map local_timestamp city_data in
          let temperatures := map temperature city_data in
          let plot_filename :=
            ("plots/" ++ replace_spaces (lower cname) ++ "_temp_trend.png")%string in
          print (Plot cname dates temperatures) ;;
          print (PlotSaved plot_filename)
      end
  end.

End WeatherLogger.

(* ================================================================== *)
(** ** Vocabulary of the statements *)

(** What [load_data] returns from a file, when it returns. *)
Definition stored_log (f : file_state) : option (list entry) :=
  match f with
  | Absent | NotJSON => Some []
  | Stored log => Some log
  | Unopenable | Undecodable => None
  end.

Definition load_warning (f : file_state) : list msg :=
  match f with
  | NotJSON => [CorruptedWarning]
  | _ => []
  end.

(** The keys [fetch_weather_data] reads from a body, in its order. *)
Definition read_payload (data : payload) : exn + (Q * string * Z) :=
  match p_main data with
  | None => inl KeyError
  | Some main =>
      match m_temp main with
      | None => inl KeyError
      | Some temp =>
          match p_weather data with
          | None => inl KeyError
          | Some weather =>
              match nth_error weather 0 with
              | None => inl IndexError
              | Some first =>
                  match w_description first with
                  | None => inl KeyError
                  | Some descr =>
                      match m_humidity main with
                      | None => inl KeyError
                      | Some hum => inr (temp, descr, hum)
                      end
                  end
              end
          end
      end
  end.

(** How a fetch fails: a status other than 200, or an exception. *)
Inductive fetch_failure : Type :=
| BadStatus (status : Z)
| Raised (e : exn).

(** The fate of the i-th request, sent for [cname]. *)
Definition attempt (E : env) (i : nat) (cname : string) : fetch_failure + entry :=
  match reply E i with
  | Refused e => inl (Raised e)
  | Response status body =>
      if status =? 200 then
        match body with
        | inl e => inl (Raised e)
        | inr data =>
            match read_payload data with
            | inl e => inl (Raised e)
            | inr (temp, descr, hum) =>
                inr (mkEntry cname temp descr hum (accepted_utc E i) (accepted_local E i))
            end
        end
      else inl (BadStatus status)
  end.

Definition observation (E : env) (i : nat) (cname : string) : option entry :=
  match attempt E i cname with
  | inr e => Some e
  | inl _ => None
  end.

Definition fetch_report (E : env) (i : nat) (cname : string) : list msg :=
  match attempt E i cname with
  | inr _ => []
  | inl (BadStatus status) => [ErrorFetchingHTTP cname status]
  | inl (Raised e) => [ErrorFetching cname e]
  end.

(** The requests numbered [i], [i+1], ... sent for the cities of a list. *)
Fixpoint observations (E : env) (i : nat) (cs : list string) : list (option entry) :=
  match cs with
  | [] => []
  | c :: rest => observation E i c :: observations E (S i) rest
  end.

Fixpoint reports (E : env) (i : nat) (cs : list string) : list msg :=
  match cs with
  | [] => []
  | c :: rest => fetch_report E i c ++ reports E (S i) rest
  end.

Fixpoint failures (E : env) (i : nat) (cs : list string)
    : list (string * fetch_failure) :=
  match cs with
  | [] => []
  | c :: rest =>
      match attempt E i c with
      | inl f => (c, f) :: failures E (S i) rest
      | inr _ => failures E (S i) rest
      end
  end.

Definition successes (obs : list (option entry)) : list entry :=
  flat_map (fun o => match o with Some e => [e] | None => [] end) obs.

(** The cities a run fetches, and those it skips. *)
Definition wanted (E : env) (force_update : bool) (data : list entry)
    (cname : string) : bool :=
  force_update || negb (is_duplicate_entry (now E) cname data).

Definition selected (E : env) (force_update : bool) (data : list entry)
    (cities : list string) : list string :=
  filter (wanted E force_update data) cities.

Definition skipped (E : env) (force_update : bool) (data : list entry)
    (cities : list string) : list string :=
  filter (fun c => negb (wanted E force_update data c)) cities.

(** The observations a run started in world [w] obtains, in task order. *)
Definition new_observations (E : env) (cities : list string)
    (force_update : bool) (w : world) (data : list entry) : list entry :=
  successes (observations E (List.length (requests w))
                          (selected E force_update data cities)).

(** What [view_all_logs] prints over a file. *)
Definition view_output (f : file_state) (cname : string) : list msg :=
  match stored_log f with
  | None => []
  | Some [] => load_warning f ++ [NoWeatherData]
  | Some data =>
      load_warning f ++
      [RecentLogs
         (map to_log_row
              (filter (fun e => truthy cname && (city e =? cname)%string)
                      (last_n 20 data)))
         (List.length data)]
  end.

Definition logged_output (f : file_state) (obs : list (option entry)) : list msg :=
  flat_map (fun o => match o with
                     | Some r => Logged (city r) (temperature r) (description r)
                                   :: view_output f (city r)
                     | None => []
                     end) obs.

(** What a "Logged data" line says of an observation. *)
Definition headline (e : entry) : string * Q * string :=
  (city e, temperature e, description e).

(** Reading the console: the cities reported as skipped, the observations
    reported as logged, the fetches reported as failed. *)
Definition skipped_of (ms : list msg) : list string :=
  flat_map (fun m => match m with Skipping c => [c] | _ => [] end) ms.

Definition logged_of (ms : list msg) : list (string * Q * string) :=
  flat_map (fun m => match m with Logged c t d => [(c, t, d)] | _ => [] end) ms.

Definition failed_of (ms : list msg) : list (string * fetch_failure) :=
  flat_map (fun m => match m with
                     | ErrorFetchingHTTP c s => [(c, BadStatus s)]
                     | ErrorFetching c e => [(c, Raised e)]
                     | _ => []
                     end) ms.

Definition error_results_of (ms : list msg) : list exn :=
  flat_map (fun m => match m with ErrorResult e => [e] | _ => [] end) ms.




(** [x] is the first item of [l] with the greatest key: it stands at some
    position, no item has a greater key, every earlier item has a smaller
    one.  Likewise for the least key. *)
Definition first_max {A : Type} (key : A -> Q) (l : list A) (x : A) : Prop :=
  exists i, nth_error l i = Some x /\
            (forall y, In y l -> (key y <= key x)%Q) /\
            (forall j y, (j < i)%nat -> nth_error l j = Some y -> (key y < key x)%Q).

Definition first_min {A : Type} (key : A -> Q) (l : list A) (x : A) : Prop :=
  exists i, nth_error l i = Some x /\
            (forall y, In y l -> (key x <= key y)%Q) /\
            (forall j y, (j < i)%nat -> nth_error l j = Some y -> (key x < key y)%Q).

(** An observation of greatest temperature and, among those, of earliest
    local time; likewise of least temperature. *)
Definition hottest_earliest (data : list entry) (e : entry) : Prop :=
  In e data /\
  (forall e', In e' data -> (temperature e' <= temperature e)%Q) /\
  (forall e', In e' data -> (temperature e' == temperature e)%Q ->
              local_timestamp e <= local_timestamp e').

Definition coldest_earliest (data : list entry) (e : entry) : Prop :=
  In e data /\
  (forall e', In e' data -> (temperature e <= temperature e')%Q) /\
  (forall e', In e' data -> (temperature e' == temperature e)%Q ->
              local_timestamp e <= local_timestamp e').

(** The observations of the last 24 hours, as [get_extremes] selects them. *)
Definition last_day (E : env) (data : list entry) : list entry :=
  filter (fun e => now E - timedelta 24 <? local_timestamp e) data.

(** The world a run leaves, started in [w] over the loaded log [data]. *)
Definition run_world (E : env) (cities : list string) (force_update : bool)
    (w : world) (data : list entry) : world :=
  let tasks := selected E force_update data cities in
  let i := List.length (requests w) in
  let obs := observations E i tasks in
  let data' := data ++ successes obs in
  let opening :=
    FetchingFor cities :: load_warning (file w) ++
    map Skipping (skipped E force_update data cities) in
  match tasks with
  | [] => say w (opening ++ [NoNewData])
  | _ =>
      mkWorld (Stored data') (saves w ++ [data']) (requests w ++ tasks)
              (output w ++ opening ++ reports E i tasks ++
               logged_output (file w) obs ++ [TotalEntries (List.length data')])
  end.

(* ================================================================== *)
(** ** Sample data *)

Definition clear_sky : payload :=
  mkPayload (Some (mkMain (Some (215 # 10)) (Some 40)))
            (Some [mkItem (Some "clear sky"%string)]).

(** A network that answers the first request, rejects the second with
    status 404 and times out on every later one. *)
Definition flaky_net : env :=
  mkEnv 7200000000
        (fun i => match i with
                  | O => Response 200 (inr clear_sky)
                  | S O => Response 404 (inl ContentTypeError)
                  | _ => Refused TimeoutError
                  end)
        (fun i => 7000000000 + Z.of_nat i)
        (fun i => 7200000000 + Z.of_nat i).

(** A network that is down. *)
Definition dead_net : env :=
  mkEnv 7200000000 (fun _ => Refused ClientError) (fun _ => 0) (fun _ => 0).

Definition fresh_world : world := mkWorld Absent [] [] [].

Definition garbled_world : world := mkWorld Undecodable [] [] [].

Definition paris_entry : entry :=
  mkEntry "Paris" (215 # 10) "clear sky" 40 7000000000 7200000000.

Definition oslo_lima : list entry :=
  [ mkEntry "Oslo" (2004 # 100) "mist" 80 100 100;
    mkEntry "Lima" (2001 # 100) "haze" 70 200 200 ].

(** Two observations of one batch: Oslo was asked first and is logged
    first, Lima answered first and carries the earlier time. *)
Definition oslo_lima_tie : list entry :=
  [ mkEntry "Oslo" 20 "mist" 80 7000000005 7200000005;
    mkEntry "Lima" 20 "haze" 70 7000000001 7200000001 ].

Definition three_cities : list entry :=
  [ mkEntry "A" 5 "snow" 90 7000000001 7200000001;
    mkEntry "B" 30 "sun" 20 7000000002 7200000002;
    mkEntry "C" 15 "rain" 60 7000000003 7200000003 ].

(** The world in which a computation ends, returning or raising. *)
Definition final {A : Type} (r : result A) : world :=
  match r with
  | Ok _ w => w
  | Raise _ w => w
  end.

(** Two worlds with the same data file, the same writes and the same
    requests: at most the console differs. *)
Definition same_store (w w' : world) : Prop :=
  file w' = file w /\ saves w' = saves w /\ requests w' = requests w.

(** A computation that, returning or raising, leaves all but the console
    as it found it. *)
Definition read_only {A : Type} (m : M A) : Prop :=
  forall w, same_store w (final (m w)).

(* ================================================================== *)
(** ** The command line *)

(** [str.isspace], on the ASCII characters. *)
Definition is_space (a : ascii) : bool :=
  let n := nat_of_ascii a in
  (((9 <=? n) && (n <=? 13)) || ((28 <=? n) && (n <=? 32)))%nat.

Fixpoint lstrip (s : string) : string :=
  match s with
  | EmptyString => EmptyString
  | String a rest => if is_space a then lstrip rest else s
  end.

Fixpoint rstrip (s : string) : string :=
  match s with
  | EmptyString => EmptyString
  | String a rest =>
      match rstrip rest with
      | EmptyString => if is_space a then EmptyString else String a EmptyString
      | kept => String a kept
      end
  end.

(** [s.strip()] *)
Definition strip (s : string) : string := rstrip (lstrip s).

(** [s.split(sep)] for a separator of one character. *)
Fixpoint split (sep : ascii) (s : string) : list string :=
  match s with
  | EmptyString => [EmptyString]
  | String a rest =>
      if Ascii.eqb a sep then EmptyString :: split sep rest
      else match split sep rest with
           | [] => [String a EmptyString]
           | piece :: pieces => String a piece :: pieces
           end
  end.

(** [[city.strip() for city in args.cities.split(",")]], as both [main]
    functions and the menu build the list of cities. *)
Definition parse_cities (arg : string) : list string :=
  map strip (split "," arg).


(** The number of occurrences of a character in a string. *)
Fixpoint count_char (c : ascii) (s : string) : nat :=
  match s with
  | EmptyString => O
  | String a rest => ((if Ascii.eqb a c then 1 else 0) + count_char c rest)%nat
  end.

(** The first and the last character of a string, if any. *)
Definition first_char (s : string) : option ascii :=
  match s with
  | EmptyString => None
  | String a _ => Some a
  end.

Fixpoint last_char (s : string) : option ascii :=
  match s with
  | EmptyString => None
  | String a EmptyString => Some a
  | String _ rest => last_char rest
  end.

(** A name as [strip] leaves it: no white space at either end. *)
Definition trimmed (s : string) : Prop :=
  (forall a, first_char s = Some a -> is_space a = false) /\
  (forall a, last_char s = Some a -> is_space a = false).


(* ================================================================== *)
(** ** The SQLite table *)

(** A row of the table [weather_logs]. *)
Record db_row : Type := mkDbRow {
  id : Z;
  db_city : string;
  db_temperature : Q;
  db_description : string;
  db_humidity : Z;
  db_utc_timestamp : datetime;
  db_local_timestamp : datetime;
  created_at : datetime
}.

(** The table with the counter that [AUTOINCREMENT] keeps for it: the
    greatest id given out so far. *)
Record table : Type := mkTable {
  rows : list db_row;
  last_id : Z
}.

(** [CREATE TABLE IF NOT EXISTS weather_logs (...)], over a database file
    that holds the table or not. *)
Definition init_database (db : option table) : table :=
  match db with
  | None => mkTable [] 0
  | Some t => t
  end.

(** One [INSERT OR IGNORE INTO weather_logs (city, ...) VALUES (...)]: the
    six values are given and none is null, the id is the next one of the
    counter and [created_at] is the clock of the database, so no
    constraint of the table can fail and the row is added.  [db_clock]
    gives the clock by the id of the row inserted. *)
Definition insert_entry (db_clock : Z -> datetime) (t : table) (e : entry) : table :=
  let next := last_id t + 1 in
  mkTable (rows t ++ [mkDbRow next (city e) (temperature e) (description e)
                              (humidity e) (utc_timestamp e) (local_timestamp e)
                              (db_clock next)])
          next.

(** The closing line of [export_to_sqlite]. *)
Inductive export_line : Type :=
| NoDataToExport
| DataExported.

(** [export_to_sqlite], over the table the constructor has set up.  The
    table after the commit and the line the method prints last are
    returned. *)
Definition export_to_sqlite (db_clock : Z -> datetime) (t : table)
    : M (table * export_line) :=
  data <- load_data ;;
  match data with
  | [] => ret (t, NoDataToExport)
  | _ => ret (fold_left (insert_entry db_clock) data t, DataExported)
  end.

(** The entry a row was made from. *)
Definition entry_of (r : db_row) : entry :=
  mkEntry (db_city r) (db_temperature r) (db_description r) (db_humidity r)
          (db_utc_timestamp r) (db_local_timestamp r).

(** A table as inserts build it: the ids are positive, differ from row to
    row, grow down the table and do not pass the counter. *)
Fixpoint ids_grow (below : Z) (l : list db_row) : Prop :=
  match l with
  | [] => True
  | r :: rest => below < id r /\ ids_grow (id r) rest
  end.

Definition table_ok (t : table) : Prop :=
  ids_grow 0 (rows t) /\ Forall (fun r => id r <= last_id t) (rows t).

(* ================================================================== *)
(** ** The scheduler *)

(** The loop of [start_scheduler] over a span in which the job falls due
    once for each environment of the list, in turn: [run_pending] runs
    [scheduled_fetch], and an exception of the job leaves the loop. *)
Fixpoint run_pending (cities : list string) (due : list env) : M unit :=
  match due with
  | [] => ret tt
  | E :: later =>
      scheduled_fetch E cities ;;
      run_pending cities later
  end.

(* ================================================================== *)
(** * Properties *)

(** ** The recency check *)

Lemma recent_scan_true (t : datetime) (cname : string) (l : list entry) :
  recent_scan t cname l = true <->
  exists e, In e l /\ same_city cname e = true /\ t < local_timestamp e.
Proof.
  induction l as [|x l IH]; simpl.
  - split; [discriminate | intros (e & [] & _)].
  - destruct (same_city cname x) eqn:Hc.
    + destruct (t <? local_timestamp x) eqn:Ht.
      * apply Z.ltb_lt in Ht. split; [|reflexivity].
        intros _. exists x. auto.
      * apply Z.ltb_ge in Ht. rewrite IH. split.
        -- intros (e & Hin & Hm & Hlt). exists e. auto.
        -- intros (e & [->|Hin] & Hm & Hlt); [lia|]. exists e. auto.
    + rewrite IH. split.
      * intros (e & Hin & Hm & Hlt). exists e. auto.
      * intros (e & [->|Hin] & Hm & Hlt); [congruence|]. exists e. auto.
Qed.

Lemma is_duplicate_entry_true (t : datetime) (cname : string) (data : list entry) :
  is_duplicate_entry t cname data = true <->
  exists e, In e data /\ same_city cname e = true /\ t - local_timestamp e < window.
Proof.
  unfold is_duplicate_entry, window.
  destruct data as [|x data].
  - split; [discriminate | intros (e & [] & _)].
  - rewrite recent_scan_true. split.
    + intros (e & Hin & Hm & Hlt). exists e. rewrite in_rev. repeat split; auto. lia.
    + intros (e & Hin & Hm & Hlt). exists e. rewrite <- in_rev. repeat split; auto. lia.
Qed.



(** ** Worlds and the store *)

Lemma say_nil (w : world) :
  say w [] = w.
Proof. destruct w; unfold say; simpl. now rewrite app_nil_r. Qed.

Lemma say_say (w : world) (a b : list msg) :
  say (say w a) b = say w (a ++ b).
Proof. unfold say; simpl. now rewrite app_assoc. Qed.

Lemma bind_ok {A B : Type} (m : M A) (k : A -> M B) (w w' : world) (a : A) :
  m w = Ok a w' -> bind m k w = k a w'.
Proof. intros H. unfold bind. now rewrite H. Qed.

Lemma bind_raise {A B : Type} (m : M A) (k : A -> M B) (w w' : world) (e : exn) :
  m w = Raise e w' -> bind m k w = Raise e w'.
Proof. intros H. unfold bind. now rewrite H. Qed.

(** [load_data], state of the file by state of the file. *)
Lemma load_data_cases (w : world) :
  load_data w =
  match file w with
  | Absent => Ok [] w
  | NotJSON => Ok [] (say w [CorruptedWarning])
  | Stored log => Ok log w
  | Unopenable => Raise OSError w
  | Undecodable => Raise UnicodeDecodeError w
  end.
Proof.
  destruct w as [f s r o]. destruct f; reflexivity.
Qed.

Lemma load_data_returns (w : world) (data : list entry) :
  stored_log (file w) = Some data ->
  load_data w = Ok data (say w (load_warning (file w))).
Proof.
  rewrite load_data_cases. unfold stored_log, load_warning.
  destruct (file w); intros H; inversion H; subst; rewrite ?say_nil; reflexivity.
Qed.

Lemma load_data_inv (w w1 : world) (data : list entry) :
  load_data w = Ok data w1 ->
  stored_log (file w) = Some data /\ w1 = say w (load_warning (file w)).
Proof.
  rewrite load_data_cases. unfold stored_log, load_warning.
  destruct (file w); intros H; inversion H; subst; rewrite ?say_nil; auto.
Qed.

Lemma view_all_logs_prints (w : world) (cname : string) (data : list entry) :
  stored_log (file w) = Some data ->
  view_all_logs (Some cname) w = Ok tt (say w (view_output (file w) cname)).
Proof.
  intros H. unfold view_all_logs.
  rewrite (bind_ok _ _ _ _ _ (load_data_returns w data H)).
  unfold view_output. rewrite H.
  destruct data; unfold print; rewrite say_say; reflexivity.
Qed.

(** ** One fetch *)

(** [fetch_weather_data] always returns: the request is recorded, the
    result is the observation of the request, a failure is printed. *)
Lemma fetch_weather_data_runs (E : env) (cname : string) (w : world) :
  fetch_weather_data E cname w =
  Ok (observation E (List.length (requests w)) cname)
     (mkWorld (file w) (saves w) (requests w ++ [cname])
              (output w ++ fetch_report E (List.length (requests w)) cname)).
Proof.
  unfold fetch_weather_data, try_except, bind, session_get, observation,
    fetch_report, attempt, read_payload.
  cbn [fst snd].
  destruct (reply E (List.length (requests w))) as [e|status body].
  - reflexivity.
  - destruct (status =? 200); [|reflexivity].
    destruct body as [e|data]; [reflexivity|].
    cbn [response_json ret].
    destruct (p_main data) as [main|]; [|reflexivity]. cbn [getitem ret].
    destruct (m_temp main) as [temp|]; [|reflexivity]. cbn [getitem ret].
    destruct (p_weather data) as [weather|]; [|reflexivity]. cbn [getitem ret].
    destruct (nth_error weather 0) as [first|]; [|reflexivity]. cbn [getitem ret].
    destruct (w_description first) as [descr|]; [|reflexivity]. cbn [getitem ret].
    destruct (m_humidity main) as [hum|]; [|reflexivity]. cbn [getitem ret].
    cbn. now rewrite app_nil_r.
Qed.

Lemma gather_fetches (E : env) (cs : list string) (w : world) :
  gather (map (fetch_weather_data E) cs) w =
  Ok (map Value (observations E (List.length (requests w)) cs))
     (mkWorld (file w) (saves w) (requests w ++ cs)
              (output w ++ reports E (List.length (requests w)) cs)).
Proof.
  revert w. induction cs as [|c cs IH]; intros w.
  - cbn. rewrite !app_nil_r. now destruct w.
  - cbn [map gather observations reports].
    unfold bind at 1. unfold try_except, bind at 1.
    rewrite fetch_weather_data_runs. cbn [ret].
    unfold bind at 1. rewrite IH. cbn [ret file saves requests output].
    rewrite length_app, Nat.add_1_r, <- !app_assoc. reflexivity.
Qed.

Lemma collect_tasks_runs (E : env) (force_update : bool) (data : list entry)
    (cities : list string) (w : world) :
  collect_tasks E force_update data cities w =
  Ok (map (fetch_weather_data E) (selected E force_update data cities))
     (say w (map Skipping (skipped E force_update data cities))).
Proof.
  revert w. induction cities as [|c cities IH]; intros w.
  - cbn. now rewrite say_nil.
  - unfold selected, skipped in *. cbn [collect_tasks filter].
    change (force_update || negb (is_duplicate_entry (now E) c data))
      with (wanted E force_update data c).
    destruct (wanted E force_update data c); cbn [negb map].
    + unfold bind. rewrite IH. reflexivity.
    + unfold bind, print. rewrite IH, say_say. reflexivity.
Qed.

Lemma log_results_runs (old : list entry) (obs : list (option entry))
    (data : list entry) (w : world) :
  stored_log (file w) = Some old ->
  log_results data (map Value obs) w =
  Ok (data ++ successes obs) (say w (logged_output (file w) obs)).
Proof.
  intros Hfile. revert data w Hfile.
  induction obs as [|o obs IH]; intros data w Hfile.
  - cbn. now rewrite app_nil_r, say_nil.
  - destruct o as [r|]; cbn [map log_results successes logged_output flat_map].
    + unfold bind at 1, print. unfold bind at 1.
      rewrite (view_all_logs_prints _ _ old) by exact Hfile.
      rewrite IH by exact Hfile. cbn [say file].
      rewrite <- app_assoc, !say_say. reflexivity.
    + rewrite IH by exact Hfile. reflexivity.
Qed.

(** ** One run *)

Lemma fetch_and_log_weather_runs (E : env) (cities : list string)
    (force_update : bool) (w : world) (data : list entry) :
  stored_log (file w) = Some data ->
  fetch_and_log_weather E cities force_update w =
  Ok tt (run_world E cities force_update w data).
Proof.
  intros Hfile. unfold fetch_and_log_weather, run_world.
  unfold bind at 1, print.
  rewrite (bind_ok _ _ _ _ _ (load_data_returns (say w [FetchingFor cities]) data Hfile)).
  rewrite (bind_ok _ _ _ _ _ (collect_tasks_runs E force_update data cities _)).
  rewrite !say_say. cbn [say file app].
  destruct (selected E force_update data cities) as [|c tasks] eqn:Hsel.
  - cbn [map]. rewrite say_say. reflexivity.
  - cbn [map]. change (fetch_weather_data E c :: map (fetch_weather_data E) tasks)
      with (map (fetch_weather_data E) (c :: tasks)).
    rewrite (bind_ok _ _ _ _ _ (gather_fetches E (c :: tasks) _)).
    cbn [say file saves requests output].
    erewrite bind_ok by (apply (log_results_runs data); exact Hfile).
    cbn [say file saves requests output bind save_data print].
    unfold bind, save_data, print, say. cbn [file saves requests output].
    rewrite <- ?app_assoc. cbn [app]. rewrite <- ?app_assoc. reflexivity.
Qed.

(** ** Reading the console of a run *)

Lemma skipped_of_app (a b : list msg) :
  skipped_of (a ++ b) = skipped_of a ++ skipped_of b.
Proof. apply flat_map_app. Qed.

Lemma logged_of_app (a b : list msg) :
  logged_of (a ++ b) = logged_of a ++ logged_of b.
Proof. apply flat_map_app. Qed.

Lemma failed_of_app (a b : list msg) :
  failed_of (a ++ b) = failed_of a ++ failed_of b.
Proof. apply flat_map_app. Qed.

Lemma error_results_of_app (a b : list msg) :
  error_results_of (a ++ b) = error_results_of a ++ error_results_of b.
Proof. apply flat_map_app. Qed.

Lemma skipped_of_Skipping (cs : list string) :
  skipped_of (map Skipping cs) = cs.
Proof.
  unfold skipped_of. induction cs as [|c cs IH]; cbn; [|rewrite IH]; reflexivity.
Qed.

Lemma load_warning_quiet (f : file_state) :
  skipped_of (load_warning f) = [] /\ logged_of (load_warning f) = [] /\
  failed_of (load_warning f) = [] /\ error_results_of (load_warning f) = [].
Proof. destruct f; cbn; auto. Qed.

Lemma view_output_quiet (f : file_state) (cname : string) :
  skipped_of (view_output f cname) = [] /\ logged_of (view_output f cname) = [] /\
  failed_of (view_output f cname) = [] /\ error_results_of (view_output f cname) = [].
Proof.
  unfold view_output. destruct (stored_log f) as [[|e data]|]; cbn; auto.
  - rewrite skipped_of_app, logged_of_app, failed_of_app, error_results_of_app.
    destruct (load_warning_quiet f) as (-> & -> & -> & ->). cbn. auto.
  - rewrite skipped_of_app, logged_of_app, failed_of_app, error_results_of_app.
    destruct (load_warning_quiet f) as (-> & -> & -> & ->). cbn. auto.
Qed.

Lemma Skipping_quiet (cs : list string) :
  logged_of (map Skipping cs) = [] /\ failed_of (map Skipping cs) = [] /\
  error_results_of (map Skipping cs) = [].
Proof. induction cs as [|c cs (IH1 & IH2 & IH3)]; cbn; auto. Qed.

Lemma fetch_report_reads (E : env) (i : nat) (c : string) :
  skipped_of (fetch_report E i c) = [] /\ logged_of (fetch_report E i c) = [] /\
  error_results_of (fetch_report E i c) = [] /\
  failed_of (fetch_report E i c) =
    match attempt E i c with inl f => [(c, f)] | inr _ => [] end.
Proof. unfold fetch_report. destruct (attempt E i c) as [[s|e]|r]; cbn; auto. Qed.

Lemma reports_read (E : env) (cs : list string) (i : nat) :
  skipped_of (reports E i cs) = [] /\ logged_of (reports E i cs) = [] /\
  error_results_of (reports E i cs) = [] /\
  failed_of (reports E i cs) = failures E i cs.
Proof.
  revert i. induction cs as [|c cs IH]; intros i; cbn [reports failures]; [cbn; auto|].
  rewrite skipped_of_app, logged_of_app, failed_of_app, error_results_of_app.
  destruct (fetch_report_reads E i c) as (-> & -> & -> & ->).
  destruct (IH (S i)) as (-> & -> & -> & ->).
  destruct (attempt E i c); cbn; auto.
Qed.

Lemma logged_output_reads (f : file_state) (obs : list (option entry)) :
  skipped_of (logged_output f obs) = [] /\
  failed_of (logged_output f obs) = [] /\
  error_results_of (logged_output f obs) = [] /\
  logged_of (logged_output f obs) = map headline (successes obs).
Proof.
  induction obs as [|o obs (IH1 & IH2 & IH3 & IH4)]; [cbn; auto|].
  destruct o as [r|]; cbn [logged_output successes flat_map].
  - change (Logged (city r) (temperature r) (description r) :: view_output f (city r))
      with ([Logged (city r) (temperature r) (description r)] ++ view_output f (city r)).
    rewrite !skipped_of_app, !logged_of_app, !failed_of_app, !error_results_of_app.
    destruct (view_output_quiet f (city r)) as (-> & -> & -> & ->).
    fold (logged_output f obs). fold (successes obs).
    rewrite IH1, IH2, IH3, IH4. cbn. auto.
  - fold (logged_output f obs). fold (successes obs). cbn. auto.
Qed.

Lemma run_world_requests (E : env) (cities : list string) (force_update : bool)
    (w : world) (data : list entry) :
  requests (run_world E cities force_update w data) =
  requests w ++ selected E force_update data cities.
Proof.
  unfold run_world. destruct (selected E force_update data cities); cbn.
  - now rewrite app_nil_r.
  - reflexivity.
Qed.

Lemma run_world_store (E : env) (cities : list string) (force_update : bool)
    (w : world) (data : list entry) :
  let w' := run_world E cities force_update w data in
  let new := new_observations E cities force_update w data in
  (saves w' = saves w /\ file w' = file w /\ new = []) \/
  (saves w' = saves w ++ [data ++ new] /\ file w' = Stored (data ++ new)).
Proof.
  unfold run_world, new_observations.
  destruct (selected E force_update data cities); cbn; auto.
Qed.

Lemma run_world_reads (E : env) (cities : list string) (force_update : bool)
    (w : world) (data : list entry) :
  exists ms,
    output (run_world E cities force_update w data) = output w ++ ms /\
    skipped_of ms = skipped E force_update data cities /\
    logged_of ms = map headline (new_observations E cities force_update w data) /\
    failed_of ms =
      failures E (List.length (requests w)) (selected E force_update data cities) /\
    error_results_of ms = [].
Proof.
  unfold run_world, new_observations.
  set (i := List.length (requests w)).
  set (sk := skipped E force_update data cities).
  destruct (load_warning_quiet (file w)) as (W1 & W2 & W3 & W4).
  destruct (Skipping_quiet sk) as (S2 & S3 & S4).
  destruct (selected E force_update data cities) as [|c tasks] eqn:Hsel.
  - eexists. split; [reflexivity|].
    change (FetchingFor cities :: load_warning (file w) ++ map Skipping sk)
      with ([FetchingFor cities] ++ load_warning (file w) ++ map Skipping sk).
    rewrite !skipped_of_app, !logged_of_app, !failed_of_app, !error_results_of_app.
    rewrite W1, W2, W3, W4, S2, S3, S4, skipped_of_Skipping. cbn.
    rewrite app_nil_r. auto.
  - eexists. split; [reflexivity|].
    destruct (reports_read E (c :: tasks) i) as (R1 & R2 & R3 & R4).
    destruct (logged_output_reads (file w) (observations E i (c :: tasks)))
      as (L1 & L2 & L3 & L4).
    change (FetchingFor cities :: load_warning (file w) ++ map Skipping sk)
      with ([FetchingFor cities] ++ load_warning (file w) ++ map Skipping sk).
    rewrite !skipped_of_app, !logged_of_app, !failed_of_app, !error_results_of_app.
    rewrite W1, W2, W3, W4, S2, S3, S4, skipped_of_Skipping, R1, R2, R3, R4,
      L1, L2, L3, L4.
    cbn [skipped_of logged_of failed_of error_results_of flat_map app].
    rewrite !app_nil_r. auto.
Qed.

Lemma observations_nth (E : env) (cs : list string) (k i : nat) (c : string) :
  nth_error cs i = Some c ->
  nth_error (observations E k cs) i = Some (observation E (k + i) c).
Proof.
  revert k i. induction cs as [|x cs IH]; intros k [|i] H; try discriminate.
  - cbn in *. inversion H; subst. now rewrite Nat.add_0_r.
  - cbn in *. rewrite (IH (S k) i H). f_equal. f_equal. lia.
Qed.

Lemma successes_In (obs : list (option entry)) (e : entry) :
  In e (successes obs) <-> In (Some e) obs.
Proof.
  unfold successes. rewrite in_flat_map. split.
  - intros ([x|] & Hin & Hx); cbn in Hx; [|contradiction].
    destruct Hx as [->|[]]. exact Hin.
  - intros Hin. exists (Some e). cbn. auto.
Qed.

Lemma selected_forced (E : env) (data : list entry) (cities : list string) :
  selected E true data cities = cities /\ skipped E true data cities = [].
Proof.
  unfold selected, skipped, wanted. cbn.
  induction cities as [|c cities (IH1 & IH2)]; cbn; [auto|].
  rewrite IH1. auto.
Qed.

(** ** The run and the store *)

(** C2. A run whose load of the store returns writes the data file at most
    once; the list written is the loaded log followed by the observations
    the run obtained, in task order, and a load after the run returns
    exactly that list: the log of before as a prefix, the new observations
    as its last entries. *)
Theorem run_writes_once_and_appends :
  forall (E : env) (cities : list string) (force_update : bool)
         (w w1 : world) (data : list entry),
    load_data w = Ok data w1 ->
    exists w',
      fetch_and_log_weather E cities force_update w = Ok tt w' /\
      let new := new_observations E cities force_update w data in
      ((saves w' = saves w /\ file w' = file w) \/
       saves w' = saves w ++ [data ++ new]) /\
      exists w2, load_data w' = Ok (data ++ new) w2.
Proof.
  intros E cities force_update w w1 data Hload.
  apply load_data_inv in Hload. destruct Hload as (Hfile & _).
  exists (run_world E cities force_update w data).
  split; [apply fetch_and_log_weather_runs; exact Hfile|].
  cbv zeta.
  destruct (run_world_store E cities force_update w data) as [(Hs & Hf & Hn)|(Hs & Hf)].
  - split; [left; auto|]. eexists. apply load_data_returns.
    rewrite Hf, Hn, app_nil_r. exact Hfile.
  - split; [right; exact Hs|]. eexists. apply load_data_returns.
    rewrite Hf. reflexivity.
Qed.

Lemma run_writes_once_and_appends_witness :
  load_data fresh_world = Ok [] fresh_world /\
  exists w',
    fetch_and_log_weather flaky_net ["Paris"; "Oslo"; "Lima"]%string false fresh_world
      = Ok tt w' /\
    let new := new_observations flaky_net ["Paris"; "Oslo"; "Lima"]%string false
                                fresh_world [] in
    ((saves w' = saves fresh_world /\ file w' = file fresh_world) \/
     saves w' = saves fresh_world ++ [[] ++ new]) /\
    exists w2, load_data w' = Ok ([] ++ new) w2.
Proof.
  split; [reflexivity|].
  apply (run_writes_once_and_appends flaky_net ["Paris"; "Oslo"; "Lima"]%string
           false fresh_world fresh_world []).
  reflexivity.
Defined.

(** C3. In a run whose load of the store returns, every selected location
    has its request sent whatever happens to the others, and every fetch
    that succeeds has its observation in the log read back after the run,
    however the other fetches of the batch end. *)
Theorem failed_fetches_spare_siblings :
  forall (E : env) (cities : list string) (force_update : bool)
         (w w1 : world) (data : list entry),
    load_data w = Ok data w1 ->
    exists w' w2 log',
      fetch_and_log_weather E cities force_update w = Ok tt w' /\
      requests w' = requests w ++ selected E force_update data cities /\
      load_data w' = Ok log' w2 /\
      forall (i : nat) (c : string) (e : entry),
        nth_error (selected E force_update data cities) i = Some c ->
        observation E (List.length (requests w) + i) c = Some e ->
        In e log'.
Proof.
  intros E cities force_update w w1 data Hload.
  apply load_data_inv in Hload. destruct Hload as (Hfile & _).
  set (w' := run_world E cities force_update w data).
  set (new := new_observations E cities force_update w data).
  assert (Hafter : stored_log (file w') = Some (data ++ new)).
  { destruct (run_world_store E cities force_update w data) as [(_ & Hf & Hn)|(_ & Hf)];
      fold w' new in Hf; try fold new in Hn; rewrite Hf.
    - rewrite Hn, app_nil_r. exact Hfile.
    - reflexivity. }
  exists w', (say w' (load_warning (file w'))), (data ++ new).
  split; [apply fetch_and_log_weather_runs; exact Hfile|].
  split; [apply run_world_requests|].
  split; [apply load_data_returns; exact Hafter|].
  intros i c e Hnth Hobs.
  apply in_or_app. right. unfold new, new_observations.
  apply successes_In. rewrite <- Hobs.
  apply nth_error_In with (n := i). apply observations_nth. exact Hnth.
Qed.

Lemma failed_fetches_spare_siblings_witness :
  load_data fresh_world = Ok [] fresh_world /\
  exists w' w2 log',
    fetch_and_log_weather flaky_net ["Paris"; "Oslo"; "Lima"]%string false fresh_world
      = Ok tt w' /\
    requests w' =
      requests fresh_world ++
      selected flaky_net false [] ["Paris"; "Oslo"; "Lima"]%string /\
    load_data w' = Ok log' w2 /\
    forall (i : nat) (c : string) (e : entry),
      nth_error (selected flaky_net false [] ["Paris"; "Oslo"; "Lima"]%string) i
        = Some c ->
      observation flaky_net (List.length (requests fresh_world) + i) c = Some e ->
      In e log'.
Proof.
  split; [reflexivity|].
  apply (failed_fetches_spare_siblings flaky_net ["Paris"; "Oslo"; "Lima"]%string
           false fresh_world fresh_world []).
  reflexivity.
Defined.

(** The scheduler's fetch is a forced run. *)
Lemma scheduled_fetch_is_forced (E : env) (cities : list string) (w : world) :
  scheduled_fetch E cities w =
  fetch_and_log_weather E cities true (say w [ScheduledFetch (now E)]).
Proof. reflexivity. Qed.

(** C5. With [force_update] set, a run whose load of the store returns
    fetches every requested location, whatever the log holds: its requests
    are the requested locations, one each and in order, and no location is
    reported as skipped. *)
Theorem forced_run_fetches_all :
  forall (E : env) (cities : list string) (w w1 : world) (data : list entry),
    load_data w = Ok data w1 ->
    exists w' ms,
      fetch_and_log_weather E cities true w = Ok tt w' /\
      requests w' = requests w ++ cities /\
      List.length (requests w') = (List.length (requests w) + List.length cities)%nat /\
      output w' = output w ++ ms /\
      skipped_of ms = [].
Proof.
  intros E cities w w1 data Hload.
  apply load_data_inv in Hload. destruct Hload as (Hfile & _).
  destruct (selected_forced E data cities) as (Hsel & Hskip).
  destruct (run_world_reads E cities true w data) as (ms & Hout & Hsk & _).
  exists (run_world E cities true w data), ms.
  split; [apply fetch_and_log_weather_runs; exact Hfile|].
  rewrite run_world_requests, Hsel, length_app.
  repeat split; auto. now rewrite Hsk.
Qed.

Lemma forced_run_fetches_all_witness :
  load_data (mkWorld (Stored [paris_entry]) [] [] []) =
    Ok [paris_entry] (mkWorld (Stored [paris_entry]) [] [] []) /\
  is_duplicate_entry (now flaky_net) "Paris" [paris_entry] = true /\
  exists w' ms,
    fetch_and_log_weather flaky_net ["Paris"; "paris"]%string true
        (mkWorld (Stored [paris_entry]) [] [] []) = Ok tt w' /\
    requests w' = [] ++ ["Paris"; "paris"]%string /\
    List.length (requests w') = (0 + 2)%nat /\
    output w' = [] ++ ms /\
    skipped_of ms = [].
Proof.
  split; [reflexivity|]. split; [reflexivity|].
  apply (forced_run_fetches_all flaky_net ["Paris"; "paris"]%string
           (mkWorld (Stored [paris_entry]) [] [] [])
           (mkWorld (Stored [paris_entry]) [] [] []) [paris_entry]).
  reflexivity.
Defined.

(** ** The fetch never raises *)

(** C10. [fetch_weather_data] returns for every reply: [None] when the
    request raises, when the status is not 200, when reading the body
    raises and when the body lacks a key that is read, and the observation
    otherwise; so among the results gathered from such tasks there is no
    exception. *)
Theorem fetch_weather_data_never_raises :
  forall (E : env),
    (forall (cname : string) (w : world),
        exists v w',
          fetch_weather_data E cname w = Ok v w' /\
          match reply E (List.length (requests w)) with
          | Refused _ => v = None
          | Response status body =>
              if status =? 200 then
                match body with
                | inl _ => v = None
                | inr data =>
                    match read_payload data with
                    | inl _ => v = None
                    | inr _ => v <> None
                    end
                end
              else v = None
          end) /\
    (forall (cs : list string) (w : world),
        exists results w',
          gather (map (fetch_weather_data E) cs) w = Ok results w' /\
          forall e, ~ In (Exc e) results).
Proof.
  intros E. split.
  - intros cname w. eexists. eexists.
    split; [apply fetch_weather_data_runs|].
    unfold observation, attempt.
    destruct (reply E (List.length (requests w))) as [e|status body]; [reflexivity|].
    destruct (status =? 200); [|reflexivity].
    destruct body as [e|data]; [reflexivity|].
    destruct (read_payload data) as [e|[[t d] h]]; [reflexivity|discriminate].
  - intros cs w. eexists. eexists.
    split; [apply gather_fetches|].
    intros e Hin. apply in_map_iff in Hin. destruct Hin as (o & Ho & _). discriminate.
Qed.

Lemma fetch_weather_data_refused_sample :
  fetch_weather_data dead_net "Paris" fresh_world =
  Ok None (mkWorld Absent [] ["Paris"%string] [ErrorFetching "Paris" ClientError]).
Proof. reflexivity. Qed.

(** ** What a run reports *)




(** ** Loading *)



(** ** Sorting *)

Section Sorting.

Context {A : Type} (key : A -> Z).

Lemma insert_by_perm (x : A) (l : list A) :
  Permutation (insert_by key x l) (x :: l).
Proof.
  induction l as [|y l IH]; cbn; [reflexivity|].
  destruct (key x <=? key y); [reflexivity|].
  rewrite IH. apply perm_swap.
Qed.

Lemma sort_by_perm (l : list A) :
  Permutation (sort_by key l) l.
Proof.
  induction l as [|x l IH]; cbn; [reflexivity|].
  rewrite insert_by_perm. now apply perm_skip.
Qed.



(** The sort is stable: items of equal key keep their order. *)
Lemma insert_by_stable (k : Z) (x : A) (l : list A) :
  filter (fun a => key a =? k) (insert_by key x l) =
  filter (fun a => key a =? k) (x :: l).
Proof.
  induction l as [|y l IH]; cbn [insert_by]; [reflexivity|].
  destruct (key x <=? key y) eqn:Hxy; [reflexivity|].
  apply Z.leb_gt in Hxy.
  cbn [filter] in *. rewrite IH.
  destruct (key x =? k) eqn:Hx, (key y =? k) eqn:Hy; try reflexivity.
  apply Z.eqb_eq in Hx, Hy. lia.
Qed.

Lemma sort_by_stable (k : Z) (l : list A) :
  filter (fun a => key a =? k) (sort_by key l) = filter (fun a => key a =? k) l.
Proof.
  induction l as [|x l IH]; cbn [sort_by]; [reflexivity|].
  rewrite insert_by_stable. cbn [filter]. now rewrite IH.
Qed.

End Sorting.

(** ** Grouping by city *)






Lemma group_by_city_snoc (data : list entry) (e : entry) :
  group_by_city (data ++ [e]) =
  dict_append (city e) (temperature e) (group_by_city data).
Proof. unfold group_by_city. now rewrite fold_left_app. Qed.


(** ** City averages *)

Example city_averages_10_20_30 :
  city_averages [ mkEntry "Rome" 10 "a" 1 1 1; mkEntry "Rome" 20 "b" 2 2 2;
                  mkEntry "Rome" 30 "c" 3 3 3 ] = [mkAvgRow "Rome" 200 3].
Proof. reflexivity. Qed.




(** ** Extremes *)

Section FirstBest.

Context {A : Type} (better : A -> A -> bool).

Hypothesis better_irrefl : forall x, better x x = false.
Hypothesis better_pass : forall x best y,
  better x best = true -> better y best = false ->
  better y x = false /\ better x y = true.

(** The scan keeps the first item that no item beats. *)
Lemma scan_keeps_first_best (rest prefix : list A) (best : A) (i : nat) :
  nth_error prefix i = Some best ->
  (forall y, In y prefix -> better y best = false) ->
  (forall j y, (j < i)%nat -> nth_error prefix j = Some y -> better best y = true) ->
  exists i',
    let m := fold_left (fun best x => if better x best then x else best) rest best in
    nth_error (prefix ++ rest) i' = Some m /\
    (forall y, In y (prefix ++ rest) -> better y m = false) /\
    (forall j y, (j < i')%nat -> nth_error (prefix ++ rest) j = Some y ->
                 better m y = true).
Proof.
  revert prefix best i.
  induction rest as [|x rest IH]; intros prefix best i Hnth Hall Hbefore.
  - exists i. cbn. rewrite app_nil_r. auto.
  - cbn [fold_left].
    replace (prefix ++ x :: rest) with ((prefix ++ [x]) ++ rest)
      by (rewrite <- app_assoc; reflexivity).
    assert (Hi : (i < List.length prefix)%nat)
      by (apply nth_error_Some; congruence).
    destruct (better x best) eqn:Hx.
    + apply (IH (prefix ++ [x]) x (List.length prefix)).
      * rewrite nth_error_app2, Nat.sub_diag by lia. reflexivity.
      * intros y Hy. apply in_app_or in Hy. destruct Hy as [Hy|[<-|[]]].
        -- apply (better_pass x best y Hx (Hall y Hy)).
        -- apply better_irrefl.
      * intros j y Hj Hy. rewrite nth_error_app1 in Hy by exact Hj.
        apply nth_error_In in Hy.
        apply (better_pass x best y Hx (Hall y Hy)).
    + apply (IH (prefix ++ [x]) best i).
      * rewrite nth_error_app1 by exact Hi. exact Hnth.
      * intros y Hy. apply in_app_or in Hy. destruct Hy as [Hy|[<-|[]]]; auto.
      * intros j y Hj Hy. rewrite nth_error_app1 in Hy by lia. eauto.
Qed.

End FirstBest.

Lemma Qltb_lt (x y : Q) : Qltb x y = true <-> (x < y)%Q.
Proof.
  unfold Qltb. rewrite negb_true_iff. split.
  - intros H. apply Qnot_le_lt. intros Hle.
    apply Qle_bool_iff in Hle. congruence.
  - intros H. destruct (Qle_bool y x) eqn:Hle; [|reflexivity].
    apply Qle_bool_iff in Hle. exfalso. exact (Qlt_not_le _ _ H Hle).
Qed.

Lemma Qltb_ge (x y : Q) : Qltb x y = false <-> (y <= x)%Q.
Proof.
  unfold Qltb. rewrite negb_false_iff. apply Qle_bool_iff.
Qed.

Lemma max_from_first_max {A : Type} (key : A -> Q) (x : A) (rest : list A) :
  first_max key (x :: rest) (max_from key x rest).
Proof.
  destruct (scan_keeps_first_best (fun a best => Qltb (key best) (key a)))
    with (rest := rest) (prefix := [x]) (best := x) (i := O)
    as (i & Hnth & Hall & Hbefore).
  - intros a. apply Qltb_ge. apply Qle_refl.
  - intros a best y Ha Hy. apply Qltb_lt in Ha. apply Qltb_ge in Hy. split.
    + apply Qltb_ge. apply Qle_trans with (key best); [exact Hy|].
      apply Qlt_le_weak. exact Ha.
    + apply Qltb_lt. apply Qle_lt_trans with (key best); assumption.
  - reflexivity.
  - intros y [<-|[]]. apply Qltb_ge. apply Qle_refl.
  - intros j y Hj. lia.
  - exists i. cbv zeta in *. fold (max_from key x rest) in *.
    split; [exact Hnth|]. split.
    + intros y Hy. apply Qltb_ge. apply (Hall y Hy).
    + intros j y Hj Hy. apply Qltb_lt. apply (Hbefore j y Hj Hy).
Qed.

Lemma min_from_first_min {A : Type} (key : A -> Q) (x : A) (rest : list A) :
  first_min key (x :: rest) (min_from key x rest).
Proof.
  destruct (scan_keeps_first_best (fun a best => Qltb (key a) (key best)))
    with (rest := rest) (prefix := [x]) (best := x) (i := O)
    as (i & Hnth & Hall & Hbefore).
  - intros a. apply Qltb_ge. apply Qle_refl.
  - intros a best y Ha Hy. apply Qltb_lt in Ha. apply Qltb_ge in Hy. split.
    + apply Qltb_ge. apply Qle_trans with (key best); [|exact Hy].
      apply Qlt_le_weak. exact Ha.
    + apply Qltb_lt. apply Qlt_le_trans with (key best); assumption.
  - reflexivity.
  - intros y [<-|[]]. apply Qltb_ge. apply Qle_refl.
  - intros j y Hj. lia.
  - exists i. cbv zeta in *. fold (min_from key x rest) in *.
    split; [exact Hnth|]. split.
    + intros y Hy. apply Qltb_ge. apply (Hall y Hy).
    + intros j y Hj Hy. apply Qltb_lt. apply (Hbefore j y Hj Hy).
Qed.

Example extremes_three_cities :
  get_extremes flaky_net (mkWorld (Stored three_cities) [] [] []) =
  Ok tt (mkWorld (Stored three_cities) [] []
           [Extremes ("B"%string, 300) ("A"%string, 50)
                     ("B"%string, 300) ("A"%string, 50)]).
Proof. reflexivity. Qed.

(** C7, as stated, fails on the tie rule: of two observations of equal
    temperature the one logged first is reported, also when the other one
    was observed earlier.  Lima carries the earliest time among the hottest
    and among the coldest observations, and Oslo is reported four times. *)
Lemma extremes_ties_follow_log_order :
  get_extremes flaky_net (mkWorld (Stored oslo_lima_tie) [] [] []) =
    Ok tt (mkWorld (Stored oslo_lima_tie) [] []
             [Extremes ("Oslo"%string, 200) ("Oslo"%string, 200)
                       ("Oslo"%string, 200) ("Oslo"%string, 200)]) /\
  last_day flaky_net oslo_lima_tie = oslo_lima_tie /\
  (forall e, hottest_earliest oslo_lima_tie e -> city e = "Lima"%string) /\
  (forall e, coldest_earliest oslo_lima_tie e -> city e = "Lima"%string).
Proof.
  split; [reflexivity|]. split; [reflexivity|].
  split; intros e (Hin & _ & Hearly).
  - destruct Hin as [<-|[<-|[]]]; [|reflexivity].
    exfalso. specialize (Hearly (mkEntry "Lima" 20 "haze" 70 7000000001 7200000001)).
    cbn in Hearly. assert (7200000005 <= 7200000001); [|lia].
    apply Hearly; [right; left; reflexivity | reflexivity].
  - destruct Hin as [<-|[<-|[]]]; [|reflexivity].
    exfalso. specialize (Hearly (mkEntry "Lima" 20 "haze" 70 7000000001 7200000001)).
    cbn in Hearly. assert (7200000005 <= 7200000001); [|lia].
    apply Hearly; [right; left; reflexivity | reflexivity].
Qed.

(** C7, amended.  Over a non-empty log the extremes query reports city and
    temperature, to one decimal, of the observation of greatest and of the
    observation of least temperature, over the whole log and over the
    observations of the last 24 hours, a tie going to the observation that
    comes first in the log; when no observation falls in the last 24 hours
    it reports the pair "No data", 0 for both. *)
Theorem extremes_first_in_log_order :
  forall (E : env) (w w1 : world) (data : list entry),
    load_data w = Ok data w1 ->
    data <> [] ->
    exists hottest_overall coldest_overall hottest_24h coldest_24h,
      get_extremes E w =
        Ok tt (say w1 [Extremes (shown_1f hottest_overall) (shown_1f coldest_overall)
                                (shown_1f hottest_24h) (shown_1f coldest_24h)]) /\
      first_max snd (map city_temp data) hottest_overall /\
      first_min snd (map city_temp data) coldest_overall /\
      match map city_temp (last_day E data) with
      | [] => hottest_24h = ("No data"%string, 0%Q) /\
              coldest_24h = ("No data"%string, 0%Q)
      | recent => first_max snd recent hottest_24h /\
                  first_min snd recent coldest_24h
      end.
Proof.
  intros E w w1 data Hload Hne.
  unfold get_extremes. rewrite (bind_ok _ _ _ _ _ Hload).
  destruct data as [|d data]; [contradiction|].
  cbn [map py_max py_min]. unfold bind at 1. cbn [ret]. unfold bind at 1. cbn [ret].
  fold (last_day E (d :: data)).
  destruct (map city_temp (last_day E (d :: data))) as [|r recent] eqn:Hrecent.
  - do 4 eexists. split; [reflexivity|].
    split; [apply max_from_first_max|]. split; [apply min_from_first_min|].
    split; reflexivity.
  - do 4 eexists. split; [reflexivity|].
    split; [apply max_from_first_max|]. split; [apply min_from_first_min|].
    split; [apply max_from_first_max | apply min_from_first_min].
Qed.

Lemma extremes_first_in_log_order_witness :
  load_data (mkWorld (Stored oslo_lima_tie) [] [] []) =
    Ok oslo_lima_tie (mkWorld (Stored oslo_lima_tie) [] [] []) /\
  oslo_lima_tie <> [] /\
  exists hottest_overall coldest_overall hottest_24h coldest_24h,
    get_extremes flaky_net (mkWorld (Stored oslo_lima_tie) [] [] []) =
      Ok tt (say (mkWorld (Stored oslo_lima_tie) [] [] [])
               [Extremes (shown_1f hottest_overall) (shown_1f coldest_overall)
                         (shown_1f hottest_24h) (shown_1f coldest_24h)]) /\
    first_max snd (map city_temp oslo_lima_tie) hottest_overall /\
    first_min snd (map city_temp oslo_lima_tie) coldest_overall /\
    match map city_temp (last_day flaky_net oslo_lima_tie) with
    | [] => hottest_24h = ("No data"%string, 0%Q) /\
            coldest_24h = ("No data"%string, 0%Q)
    | recent => first_max snd recent hottest_24h /\
                first_min snd recent coldest_24h
    end.
Proof.
  split; [reflexivity|]. split; [discriminate|].
  apply (extremes_first_in_log_order flaky_net
           (mkWorld (Stored oslo_lima_tie) [] [] [])
           (mkWorld (Stored oslo_lima_tie) [] [] []) oslo_lima_tie).
  - reflexivity.
  - discriminate.
Defined.

Example extremes_no_recent_data :
  get_extremes (mkEnv 200000000000 (fun _ => Refused TimeoutError)
                      (fun _ => 0) (fun _ => 0))
               (mkWorld (Stored three_cities) [] [] []) =
  Ok tt (mkWorld (Stored three_cities) [] []
           [Extremes ("B"%string, 300) ("A"%string, 50)
                     ("No data"%string, 0) ("No data"%string, 0)]).
Proof. reflexivity. Qed.

(** ** Trend *)




Example trend_of_unknown_city :
  plot_temperature_trend "Quito" (mkWorld (Stored three_cities) [] [] []) =
  Ok tt (mkWorld (Stored three_cities) [] [] [NoDataFor "Quito"]).
Proof. reflexivity. Qed.

Example trend_of_b :
  plot_temperature_trend "b" (mkWorld (Stored three_cities) [] [] []) =
  Ok tt (mkWorld (Stored three_cities) [] []
           [Plot "b" [7200000002] [30%Q]; PlotSaved "plots/b_temp_trend.png"]).
Proof. reflexivity. Qed.

(* ================================================================== *)
(** * Further properties *)

(** ** The recency check, continued *)

Lemma bool_eq_iff (a b : bool) : (a = true <-> b = true) -> a = b.
Proof. destruct a, b; intros [H1 H2]; auto; symmetry; auto. Qed.

(** X1. The recency check does not see the spelling of the queried name:
    two names with the same lower-case form get the same answer. *)
Theorem is_duplicate_entry_ignores_case :
  forall (t : datetime) (c c' : string) (data : list entry),
    lower c = lower c' ->
    is_duplicate_entry t c data = is_duplicate_entry t c' data.
Proof.
  intros t c c' data Hl. apply bool_eq_iff.
  rewrite !is_duplicate_entry_true. unfold same_city. rewrite Hl. reflexivity.
Qed.

Lemma is_duplicate_entry_ignores_case_witness :
  lower "PARIS" = lower "paris" /\
  is_duplicate_entry 7200000000 "PARIS" [paris_entry] =
  is_duplicate_entry 7200000000 "paris" [paris_entry].
Proof.
  split; [reflexivity|].
  apply (is_duplicate_entry_ignores_case 7200000000 "PARIS" "paris" [paris_entry]).
  reflexivity.
Defined.

(** X2. The answer of the recency check does not depend on the order of
    the log: the scan from the end finds a recent entry wherever it is. *)
Theorem is_duplicate_entry_order_free :
  forall (t : datetime) (c : string) (data data' : list entry),
    Permutation data data' ->
    is_duplicate_entry t c data = is_duplicate_entry t c data'.
Proof.
  intros t c data data' Hp. apply bool_eq_iff.
  rewrite !is_duplicate_entry_true. split.
  - intros (e & Hin & H). exists e. split; [|exact H].
    eapply Permutation_in; eassumption.
  - intros (e & Hin & H). exists e. split; [|exact H].
    eapply Permutation_in; [symmetry|]; eassumption.
Qed.

Lemma is_duplicate_entry_order_free_witness :
  Permutation oslo_lima_tie (rev oslo_lima_tie) /\
  is_duplicate_entry 7200000000 "lima" oslo_lima_tie =
  is_duplicate_entry 7200000000 "lima" (rev oslo_lima_tie).
Proof.
  split; [apply Permutation_rev|].
  apply (is_duplicate_entry_order_free 7200000000 "lima" oslo_lima_tie
           (rev oslo_lima_tie)).
  apply Permutation_rev.
Defined.

(** X3. Entries added to the log never turn a duplicate into a fetch: a
    location that is recent over a log is recent over every log that holds
    the entries of the first. *)
Theorem is_duplicate_entry_grows :
  forall (t : datetime) (c : string) (data data' : list entry),
    incl data data' ->
    is_duplicate_entry t c data = true ->
    is_duplicate_entry t c data' = true.
Proof.
  intros t c data data' Hincl. rewrite !is_duplicate_entry_true.
  intros (e & Hin & H). exists e. split; [apply Hincl; exact Hin | exact H].
Qed.

Lemma is_duplicate_entry_grows_witness :
  incl [paris_entry] (oslo_lima_tie ++ [paris_entry]) /\
  is_duplicate_entry 7200000000 "Paris" [paris_entry] = true /\
  is_duplicate_entry 7200000000 "Paris" (oslo_lima_tie ++ [paris_entry]) = true.
Proof.
  assert (Hincl : incl [paris_entry] (oslo_lima_tie ++ [paris_entry])).
  { intros e He. apply in_or_app. right. exact He. }
  split; [exact Hincl|]. split; [reflexivity|].
  apply (is_duplicate_entry_grows 7200000000 "Paris" [paris_entry]
           (oslo_lima_tie ++ [paris_entry]) Hincl).
  reflexivity.
Defined.

(** ** Runs, continued *)

Lemma observation_fields (E : env) (i : nat) (c : string) (e : entry) :
  observation E i c = Some e ->
  city e = c /\ utc_timestamp e = accepted_utc E i /\
  local_timestamp e = accepted_local E i.
Proof.
  unfold observation, attempt.
  destruct (reply E i) as [x|status body]; [discriminate|].
  destruct (status =? 200); [|discriminate].
  destruct body as [x|data]; [discriminate|].
  destruct (read_payload data) as [x|[[t d] h]]; [discriminate|].
  intros H. inversion H; subst. cbn. auto.
Qed.

Lemma run_world_log (E : env) (cities : list string) (force_update : bool)
    (w : world) (data : list entry) :
  stored_log (file w) = Some data ->
  stored_log (file (run_world E cities force_update w data)) =
  Some (data ++ new_observations E cities force_update w data).
Proof.
  intros Hfile.
  destruct (run_world_store E cities force_update w data)
    as [(_ & Hf & Hn)|(_ & Hf)]; cbv zeta in *; rewrite Hf.
  - rewrite Hn, app_nil_r. exact Hfile.
  - reflexivity.
Qed.

(** X4. What a run has fetched, the next unforced run skips: after a run
    whose load of the store returns, a location whose fetch succeeded is a
    duplicate, under any spelling of the same lower-case form, at every
    instant less than two hours after its observation was accepted. *)
Theorem fetched_location_is_recent :
  forall (E : env) (cities : list string) (force_update : bool)
         (w w1 : world) (data : list entry),
    load_data w = Ok data w1 ->
    exists w' w2 data',
      fetch_and_log_weather E cities force_update w = Ok tt w' /\
      load_data w' = Ok data' w2 /\
      forall (i : nat) (c c' : string) (e : entry) (later : datetime),
        nth_error (selected E force_update data cities) i = Some c ->
        observation E (List.length (requests w) + i) c = Some e ->
        lower c' = lower c ->
        later - accepted_local E (List.length (requests w) + i) < window ->
        is_duplicate_entry later c' data' = true.
Proof.
  intros E cities force_update w w1 data Hload.
  apply load_data_inv in Hload. destruct Hload as (Hfile & _).
  set (w' := run_world E cities force_update w data).
  set (new := new_observations E cities force_update w data).
  exists w', (say w' (load_warning (file w'))), (data ++ new).
  split; [apply fetch_and_log_weather_runs; exact Hfile|].
  split; [apply load_data_returns; apply run_world_log; exact Hfile|].
  intros i c c' e later Hnth Hobs Hl Hlate.
  apply is_duplicate_entry_true. exists e.
  destruct (observation_fields _ _ _ _ Hobs) as (Hc & _ & Ht).
  split; [|split].
  - apply in_or_app. right. unfold new, new_observations.
    apply successes_In. rewrite <- Hobs.
    apply nth_error_In with (n := i). apply observations_nth. exact Hnth.
  - unfold same_city. rewrite Hc, Hl. apply String.eqb_refl.
  - rewrite Ht. exact Hlate.
Qed.

Lemma fetched_location_is_recent_witness :
  load_data fresh_world = Ok [] fresh_world /\
  exists w' w2 data',
    fetch_and_log_weather flaky_net ["Paris"; "Oslo"]%string false fresh_world
      = Ok tt w' /\
    load_data w' = Ok data' w2 /\
    forall (i : nat) (c c' : string) (e : entry) (later : datetime),
      nth_error (selected flaky_net false [] ["Paris"; "Oslo"]%string) i = Some c ->
      observation flaky_net (List.length (requests fresh_world) + i) c = Some e ->
      lower c' = lower c ->
      later - accepted_local flaky_net (List.length (requests fresh_world) + i)
        < window ->
      is_duplicate_entry later c' data' = true.
Proof.
  split; [reflexivity|].
  apply (fetched_location_is_recent flaky_net ["Paris"; "Oslo"]%string false
           fresh_world fresh_world []).
  reflexivity.
Defined.

Lemma selected_none (E : env) (data : list entry) (cities : list string) :
  (forall c, In c cities -> is_duplicate_entry (now E) c data = true) ->
  selected E false data cities = [] /\ skipped E false data cities = cities.
Proof.
  unfold selected, skipped, wanted. cbn [orb].
  induction cities as [|c cities IH]; intros H; [auto|].
  cbn [filter]. rewrite (H c) by now left. cbn [negb].
  destruct IH as (IH1 & IH2); [intros c' Hc'; apply H; now right|].
  rewrite IH1, IH2. auto.
Qed.

(** X5. An unforced run whose locations are all recent does nothing but
    print: it sends no request, does not write the data file, and prints a
    "Skipping" line for each location and the closing "No new data" line.
    So does a run over no location at all. *)
Theorem run_with_all_recent_is_idle :
  forall (E : env) (cities : list string) (w w1 : world) (data : list entry),
    load_data w = Ok data w1 ->
    (forall c, In c cities -> is_duplicate_entry (now E) c data = true) ->
    fetch_and_log_weather E cities false w =
    Ok tt (mkWorld (file w) (saves w) (requests w)
             (output w ++ FetchingFor cities :: load_warning (file w) ++
              map Skipping cities ++ [NoNewData])).
Proof.
  intros E cities w w1 data Hload Hall.
  apply load_data_inv in Hload. destruct Hload as (Hfile & _).
  rewrite (fetch_and_log_weather_runs E cities false w data Hfile).
  unfold run_world.
  destruct (selected_none E data cities Hall) as (-> & ->).
  unfold say. cbn [app]. rewrite <- app_assoc. reflexivity.
Qed.

Lemma run_with_all_recent_is_idle_witness :
  load_data (mkWorld (Stored [paris_entry]) [] [] []) =
    Ok [paris_entry] (mkWorld (Stored [paris_entry]) [] [] []) /\
  (forall c, In c ["Paris"; "PARIS"]%string ->
             is_duplicate_entry (now flaky_net) c [paris_entry] = true) /\
  fetch_and_log_weather flaky_net ["Paris"; "PARIS"]%string false
      (mkWorld (Stored [paris_entry]) [] [] []) =
  Ok tt (mkWorld (Stored [paris_entry]) [] []
           ([] ++ FetchingFor ["Paris"; "PARIS"]%string ::
            load_warning (Stored [paris_entry]) ++
            map Skipping ["Paris"; "PARIS"]%string ++ [NoNewData])).
Proof.
  assert (Hall : forall c, In c ["Paris"; "PARIS"]%string ->
                           is_duplicate_entry (now flaky_net) c [paris_entry] = true).
  { intros c [<-|[<-|[]]]; reflexivity. }
  split; [reflexivity|]. split; [exact Hall|].
  apply (run_with_all_recent_is_idle flaky_net ["Paris"; "PARIS"]%string
           (mkWorld (Stored [paris_entry]) [] [] [])
           (mkWorld (Stored [paris_entry]) [] [] []) [paris_entry]).
  - reflexivity.
  - exact Hall.
Defined.

(** X6. Over a data file that exists but cannot be opened or decoded, a
    run stops with the exception of the load: the opening line is printed,
    no request is sent and nothing is written. *)
Theorem run_stops_when_load_raises :
  forall (E : env) (cities : list string) (force_update : bool) (w : world),
    stored_log (file w) = None ->
    exists e,
      fetch_and_log_weather E cities force_update w =
      Raise e (mkWorld (file w) (saves w) (requests w)
                 (output w ++ [FetchingFor cities])).
Proof.
  intros E cities force_update w Hfile.
  unfold fetch_and_log_weather. unfold bind at 1, print.
  assert (Hl : exists e, load_data (say w [FetchingFor cities]) =
                         Raise e (say w [FetchingFor cities])).
  { rewrite load_data_cases. cbn [say file].
    destruct (file w); try discriminate; eauto. }
  destruct Hl as (e & Hl). exists e.
  rewrite (bind_raise _ _ _ _ _ Hl). reflexivity.
Qed.

Lemma run_stops_when_load_raises_witness :
  stored_log (file garbled_world) = None /\
  exists e,
    fetch_and_log_weather flaky_net ["Paris"%string] true garbled_world =
    Raise e (mkWorld (file garbled_world) (saves garbled_world)
               (requests garbled_world)
               (output garbled_world ++ [FetchingFor ["Paris"%string]])).
Proof.
  split; [reflexivity|].
  apply (run_stops_when_load_raises flaky_net ["Paris"%string] true garbled_world).
  reflexivity.
Defined.






Lemma count_occ_filter (f : string -> bool) (l : list string) (c : string) :
  count_occ string_dec (filter f l) c =
  if f c then count_occ string_dec l c else O.
Proof.
  induction l as [|x l IH]; cbn [filter count_occ].
  - now destruct (f c).
  - destruct (string_dec x c) as [->|Hne].
    + destruct (f c) eqn:Hf; cbn [count_occ].
      * destruct (string_dec c c); [|contradiction]. now rewrite IH.
      * exact IH.
    + destruct (f x); cbn [count_occ].
      * destruct (string_dec x c); [contradiction|]. exact IH.
      * exact IH.
Qed.

(** X8. A run takes all its decisions on the log as loaded and does not
    look for repeated names: a location that is to be fetched is requested
    once for each time it is listed, a location that is skipped is not
    requested at all. *)
Theorem run_requests_each_listing :
  forall (E : env) (cities : list string) (force_update : bool)
         (w w1 : world) (data : list entry),
    load_data w = Ok data w1 ->
    exists w' asked,
      fetch_and_log_weather E cities force_update w = Ok tt w' /\
      requests w' = requests w ++ asked /\
      forall c,
        count_occ string_dec asked c =
        if force_update || negb (is_duplicate_entry (now E) c data)
        then count_occ string_dec cities c else O.
Proof.
  intros E cities force_update w w1 data Hload.
  apply load_data_inv in Hload. destruct Hload as (Hfile & _).
  exists (run_world E cities force_update w data),
         (selected E force_update data cities).
  split; [apply fetch_and_log_weather_runs; exact Hfile|].
  split; [apply run_world_requests|].
  intros c. unfold selected. rewrite count_occ_filter. reflexivity.
Qed.

Lemma run_requests_each_listing_witness :
  load_data fresh_world = Ok [] fresh_world /\
  exists w' asked,
    fetch_and_log_weather flaky_net ["Paris"; "Paris"]%string false fresh_world
      = Ok tt w' /\
    requests w' = requests fresh_world ++ asked /\
    forall c,
      count_occ string_dec asked c =
      if false || negb (is_duplicate_entry (now flaky_net) c [])
      then count_occ string_dec ["Paris"; "Paris"]%string c else O.
Proof.
  split; [reflexivity|].
  apply (run_requests_each_listing flaky_net ["Paris"; "Paris"]%string false
           fresh_world fresh_world []).
  reflexivity.
Defined.

Lemma last_n_incl {A : Type} (n : nat) (l : list A) :
  incl (last_n n l) l.
Proof.
  unfold last_n. intros a Ha.
  rewrite <- (firstn_skipn (List.length l - n) l). apply in_or_app. now right.
Qed.

Lemma last_n_length {A : Type} (n : nat) (l : list A) :
  (List.length (last_n n l) <= n)%nat.
Proof. unfold last_n. rewrite length_skipn. lia. Qed.

Lemma view_output_tables (f : file_state) (c : string) (rows : list log_row)
    (n : nat) :
  In (RecentLogs rows n) (view_output f c) ->
  exists data, stored_log f = Some data /\ n = List.length data /\
               incl rows (map to_log_row data).
Proof.
  unfold view_output. destruct (stored_log f) as [data|]; [|intros []].
  intros Hin. exists data. split; [reflexivity|].
  assert (Hw : ~ In (RecentLogs rows n) (load_warning f))
    by (destruct f; cbn; intuition discriminate).
  destruct data as [|d data]; apply in_app_or in Hin;
    destruct Hin as [Hin|[Heq|[]]]; try contradiction; try discriminate.
  inversion Heq; subst. split; [reflexivity|].
  intros r Hr. apply in_map_iff in Hr. destruct Hr as (e & <- & He).
  apply in_map. apply filter_In in He. destruct He as (He & _).
  apply (last_n_incl 20 _ _ He).
Qed.

Lemma logged_output_tables (f : file_state) (obs : list (option entry))
    (rows : list log_row) (n : nat) :
  In (RecentLogs rows n) (logged_output f obs) ->
  exists c, In (RecentLogs rows n) (view_output f c).
Proof.
  unfold logged_output. rewrite in_flat_map.
  intros ([r|] & _ & Hin); [|destruct Hin].
  destruct Hin as [Heq|Hin]; [discriminate|]. eauto.
Qed.

Lemma reports_no_table (E : env) (cs : list string) (i : nat)
    (rows : list log_row) (n : nat) :
  ~ In (RecentLogs rows n) (reports E i cs).
Proof.
  revert i. induction cs as [|c cs IH]; intros i; cbn [reports]; [intros []|].
  intros Hin. apply in_app_or in Hin. destruct Hin as [Hin|Hin].
  - unfold fetch_report in Hin.
    destruct (attempt E i c) as [[s|e]|r]; cbn in Hin; intuition discriminate.
  - exact (IH _ Hin).
Qed.

(** X9. The tables a run prints after its "Logged data" lines are read
    from the data file as it was before the run, the write coming last:
    each shows the entry count of the loaded log and rows of that log
    only. *)
Theorem run_tables_show_old_log :
  forall (E : env) (cities : list string) (force_update : bool)
         (w w1 : world) (data : list entry),
    load_data w = Ok data w1 ->
    exists w' ms,
      fetch_and_log_weather E cities force_update w = Ok tt w' /\
      output w' = output w ++ ms /\
      forall rows n,
        In (RecentLogs rows n) ms ->
        n = List.length data /\ incl rows (map to_log_row data).
Proof.
  intros E cities force_update w w1 data Hload.
  apply load_data_inv in Hload. destruct Hload as (Hfile & _).
  rewrite (fetch_and_log_weather_runs E cities force_update w data Hfile).
  unfold run_world.
  assert (Hopening : forall rows n,
    ~ In (RecentLogs rows n)
         (FetchingFor cities :: load_warning (file w) ++
          map Skipping (skipped E force_update data cities))).
  { intros rows n [Heq|Hin]; [discriminate|].
    apply in_app_or in Hin. destruct Hin as [Hin|Hin].
    - destruct (file w); cbn in Hin; intuition discriminate.
    - apply in_map_iff in Hin. destruct Hin as (c & Heq & _). discriminate. }
  destruct (selected E force_update data cities) as [|c tasks].
  - eexists. eexists. split; [reflexivity|]. split; [reflexivity|].
    intros rows n Hin. apply in_app_or in Hin.
    destruct Hin as [Hin|[Heq|[]]]; [|discriminate].
    destruct (Hopening _ _ Hin).
  - eexists. eexists. split; [reflexivity|]. split; [reflexivity|].
    intros rows n Hin.
    apply in_app_or in Hin. destruct Hin as [Hin|Hin]; [destruct (Hopening _ _ Hin)|].
    apply in_app_or in Hin. destruct Hin as [Hin|Hin];
      [destruct (reports_no_table _ _ _ _ _ Hin)|].
    apply in_app_or in Hin. destruct Hin as [Hin|[Heq|[]]]; [|discriminate].
    apply logged_output_tables in Hin. destruct Hin as (c0 & Hin).
    apply view_output_tables in Hin. destruct Hin as (data0 & Hd & Hn & Hrows).
    rewrite Hfile in Hd. inversion Hd; subst. auto.
Qed.

Lemma run_tables_show_old_log_witness :
  load_data (mkWorld (Stored oslo_lima) [] [] []) =
    Ok oslo_lima (mkWorld (Stored oslo_lima) [] [] []) /\
  exists w' ms,
    fetch_and_log_weather flaky_net ["Oslo"%string] true
        (mkWorld (Stored oslo_lima) [] [] []) = Ok tt w' /\
    output w' = [] ++ ms /\
    forall rows n,
      In (RecentLogs rows n) ms ->
      n = List.length oslo_lima /\ incl rows (map to_log_row oslo_lima).
Proof.
  split; [reflexivity|].
  apply (run_tables_show_old_log flaky_net ["Oslo"%string] true
           (mkWorld (Stored oslo_lima) [] [] [])
           (mkWorld (Stored oslo_lima) [] [] []) oslo_lima).
  reflexivity.
Defined.

(** ** One fetch, continued *)

(** X10. A call of [fetch_weather_data] sends exactly one request and
    leaves the data file alone.  When it returns an observation, this one
    carries the requested name and nothing is printed; when it returns
    [None], exactly one line is printed, an "Error fetching data" line for
    the requested name. *)
Theorem fetch_weather_data_one_request :
  forall (E : env) (cname : string) (w : world),
    exists v ms,
      fetch_weather_data E cname w =
        Ok v (mkWorld (file w) (saves w) (requests w ++ [cname]) (output w ++ ms)) /\
      match v with
      | Some e => ms = [] /\ city e = cname
      | None => exists f, ms = [match f with
                                | BadStatus s => ErrorFetchingHTTP cname s
                                | Raised x => ErrorFetching cname x
                                end]
      end.
Proof.
  intros E cname w. eexists. eexists.
  split; [apply fetch_weather_data_runs|].
  unfold fetch_report.
  destruct (observation E (List.length (requests w)) cname) as [e|] eqn:Hobs.
  - destruct (observation_fields _ _ _ _ Hobs) as (Hc & _).
    unfold observation in Hobs.
    destruct (attempt E (List.length (requests w)) cname); [discriminate|]. auto.
  - unfold observation in Hobs.
    destruct (attempt E (List.length (requests w)) cname) as [f|r]; [|discriminate].
    exists f. destruct f; reflexivity.
Qed.

(** ** The table of recent logs *)

(** X11. Called without a city, as the menu does, [view_all_logs] prints a
    table without rows whatever the log holds: a row is kept only under a
    city filter. *)
Theorem view_all_logs_without_city_is_empty :
  forall (w w1 : world) (data : list entry),
    load_data w = Ok data w1 ->
    data <> [] ->
    view_all_logs None w = Ok tt (say w1 [RecentLogs [] (List.length data)]).
Proof.
  intros w w1 data Hload Hne. unfold view_all_logs.
  rewrite (bind_ok _ _ _ _ _ Hload).
  destruct data as [|d data]; [contradiction|].
  assert (Hf : forall l : list entry, filter (fun _ => false) l = []).
  { induction l as [|x l IH]; cbn; auto. }
  rewrite Hf. reflexivity.
Qed.

Lemma view_all_logs_without_city_is_empty_witness :
  load_data (mkWorld (Stored three_cities) [] [] []) =
    Ok three_cities (mkWorld (Stored three_cities) [] [] []) /\
  three_cities <> [] /\
  view_all_logs None (mkWorld (Stored three_cities) [] [] []) =
  Ok tt (say (mkWorld (Stored three_cities) [] [] [])
           [RecentLogs [] (List.length three_cities)]).
Proof.
  split; [reflexivity|]. split; [discriminate|].
  apply (view_all_logs_without_city_is_empty
           (mkWorld (Stored three_cities) [] [] [])
           (mkWorld (Stored three_cities) [] [] []) three_cities).
  - reflexivity.
  - discriminate.
Defined.

(** X12. Called with a city over a non-empty log, [view_all_logs] prints
    one table with the entry count of the log and at most 20 rows; every
    row is the row of one of the last 20 entries and carries exactly the
    given city string. *)
Theorem view_all_logs_rows :
  forall (cname : string) (w w1 : world) (data : list entry),
    load_data w = Ok data w1 ->
    data <> [] ->
    exists rows,
      view_all_logs (Some cname) w =
        Ok tt (say w1 [RecentLogs rows (List.length data)]) /\
      (List.length rows <= 20)%nat /\
      forall r, In r rows ->
        lr_city r = cname /\
        exists e, In e (last_n 20 data) /\ r = to_log_row e.
Proof.
  intros cname w w1 data Hload Hne. unfold view_all_logs.
  rewrite (bind_ok _ _ _ _ _ Hload).
  destruct data as [|d data]; [contradiction|].
  eexists. split; [reflexivity|]. split.
  - rewrite length_map. etransitivity; [apply filter_length_le|].
    apply last_n_length.
  - intros r Hr. apply in_map_iff in Hr. destruct Hr as (e & <- & He).
    apply filter_In in He. destruct He as (He & Hc).
    apply andb_true_iff in Hc. destruct Hc as (_ & Hc).
    apply String.eqb_eq in Hc. split; [exact Hc | eauto].
Qed.

Lemma view_all_logs_rows_witness :
  load_data (mkWorld (Stored three_cities) [] [] []) =
    Ok three_cities (mkWorld (Stored three_cities) [] [] []) /\
  three_cities <> [] /\
  exists rows,
    view_all_logs (Some "B"%string) (mkWorld (Stored three_cities) [] [] []) =
      Ok tt (say (mkWorld (Stored three_cities) [] [] [])
               [RecentLogs rows (List.length three_cities)]) /\
    (List.length rows <= 20)%nat /\
    forall r, In r rows ->
      lr_city r = "B"%string /\
      exists e, In e (last_n 20 three_cities) /\ r = to_log_row e.
Proof.
  split; [reflexivity|]. split; [discriminate|].
  apply (view_all_logs_rows "B" (mkWorld (Stored three_cities) [] [] [])
           (mkWorld (Stored three_cities) [] [] []) three_cities).
  - reflexivity.
  - discriminate.
Defined.

(** ** The queries *)

Lemma load_data_same_store (w : world) :
  same_store w (final (load_data w)).
Proof.
  rewrite load_data_cases. unfold same_store.
  destruct (file w) eqn:Hf; cbn; rewrite ?Hf; auto.
Qed.

Lemma read_only_ret {A : Type} (a : A) : read_only (ret a).
Proof. intros w. cbn. unfold same_store. auto. Qed.

Lemma read_only_raise {A : Type} (e : exn) : read_only (@raise A e).
Proof. intros w. cbn. unfold same_store. auto. Qed.

Lemma read_only_print (m : msg) : read_only (print m).
Proof. intros w. cbn. unfold same_store. auto. Qed.

Lemma read_only_load_data : read_only load_data.
Proof. exact load_data_same_store. Qed.

Lemma read_only_bind {A B : Type} (m : M A) (k : A -> M B) :
  read_only m -> (forall a, read_only (k a)) -> read_only (bind m k).
Proof.
  intros Hm Hk w. unfold bind. specialize (Hm w).
  destruct (m w) as [a w1|e w1]; cbn [final] in *; [|exact Hm].
  specialize (Hk a w1). unfold same_store in *.
  destruct Hm as (H1 & H2 & H3). destruct Hk as (K1 & K2 & K3).
  repeat split; congruence.
Qed.

Lemma read_only_py_max (items : list (string * Q)) : read_only (py_max items).
Proof. destruct items; [apply read_only_raise | apply read_only_ret]. Qed.

Lemma read_only_py_min (items : list (string * Q)) : read_only (py_min items).
Proof. destruct items; [apply read_only_raise | apply read_only_ret]. Qed.

Ltac read_only_steps :=
  repeat first
    [ apply read_only_ret | apply read_only_raise | apply read_only_print
    | apply read_only_load_data | apply read_only_py_max | apply read_only_py_min
    | apply read_only_bind; [|intros]
    | match goal with
      | |- read_only (match ?x with _ => _ end) => destruct x
      end ].

Lemma view_all_logs_same_store (filter_city : option string) :
  read_only (view_all_logs filter_city).
Proof. unfold view_all_logs. read_only_steps. Qed.

Lemma get_city_averages_same_store : read_only get_city_averages.
Proof. unfold get_city_averages. read_only_steps. Qed.

Lemma get_extremes_same_store (E : env) : read_only (get_extremes E).
Proof. unfold get_extremes. read_only_steps. Qed.

Lemma plot_temperature_trend_same_store (cname : string) :
  read_only (plot_temperature_trend cname).
Proof. unfold plot_temperature_trend. read_only_steps. Qed.

(** X13. The four queries only read: whether they return or raise, the
    table of recent logs, the city averages, the extremes and the trend
    leave the data file as it is, write nothing and send no request. *)
Theorem queries_are_read_only :
  forall (E : env) (cname : string) (filter_city : option string) (w : world),
    same_store w (final (view_all_logs filter_city w)) /\
    same_store w (final (get_city_averages w)) /\
    same_store w (final (get_extremes E w)) /\
    same_store w (final (plot_temperature_trend cname w)).
Proof.
  intros E cname filter_city w.
  split; [apply view_all_logs_same_store|].
  split; [apply get_city_averages_same_store|].
  split; [apply get_extremes_same_store | apply plot_temperature_trend_same_store].
Qed.

(** X14. Over a log without entries, the data file missing, holding an
    empty list or holding text that is not JSON, each of the four queries
    prints the line "No weather data available." (after the warning of the
    load, if any) and nothing else. *)
Theorem queries_over_empty_log :
  forall (E : env) (cname : string) (filter_city : option string)
         (w w1 : world),
    load_data w = Ok [] w1 ->
    view_all_logs filter_city w = Ok tt (say w1 [NoWeatherData]) /\
    get_city_averages w = Ok tt (say w1 [NoWeatherData]) /\
    get_extremes E w = Ok tt (say w1 [NoWeatherData]) /\
    plot_temperature_trend cname w = Ok tt (say w1 [NoWeatherData]).
Proof.
  intros E cname filter_city w w1 Hload.
  unfold view_all_logs, get_city_averages, get_extremes, plot_temperature_trend.
  rewrite !(bind_ok _ _ _ _ _ Hload). auto.
Qed.

Lemma queries_over_empty_log_witness :
  load_data (mkWorld NotJSON [] [] []) =
    Ok [] (mkWorld NotJSON [] [] [CorruptedWarning]) /\
  view_all_logs None (mkWorld NotJSON [] [] []) =
    Ok tt (say (mkWorld NotJSON [] [] [CorruptedWarning]) [NoWeatherData]) /\
  get_city_averages (mkWorld NotJSON [] [] []) =
    Ok tt (say (mkWorld NotJSON [] [] [CorruptedWarning]) [NoWeatherData]) /\
  get_extremes flaky_net (mkWorld NotJSON [] [] []) =
    Ok tt (say (mkWorld NotJSON [] [] [CorruptedWarning]) [NoWeatherData]) /\
  plot_temperature_trend "Paris" (mkWorld NotJSON [] [] []) =
    Ok tt (say (mkWorld NotJSON [] [] [CorruptedWarning]) [NoWeatherData]).
Proof.
  split; [reflexivity|].
  apply (queries_over_empty_log flaky_net "Paris" None
           (mkWorld NotJSON [] [] []) (mkWorld NotJSON [] [] [CorruptedWarning])).
  reflexivity.
Defined.

(** ** City averages, continued *)

Lemma list_sum_perm (l l' : list nat) :
  Permutation l l' -> list_sum l = list_sum l'.
Proof.
  unfold list_sum. induction 1; cbn in *; lia.
Qed.

Lemma dict_append_sizes (k : string) (v : Q) (d : list (string * list Q)) :
  list_sum (map (fun kv => List.length (snd kv)) (dict_append k v d)) =
  S (list_sum (map (fun kv => List.length (snd kv)) d)).
Proof.
  induction d as [|[k' vs] d IH]; cbn [dict_append map list_sum fold_right snd].
  - reflexivity.
  - destruct (k' =? k)%string; cbn [map list_sum fold_right snd].
    + rewrite length_app. cbn. lia.
    + unfold list_sum in IH. rewrite IH. lia.
Qed.

Lemma group_by_city_sizes (data : list entry) :
  list_sum (map (fun kv => List.length (snd kv)) (group_by_city data)) =
  List.length data.
Proof.
  induction data as [|e data IH] using rev_ind; [reflexivity|].
  rewrite group_by_city_snoc, dict_append_sizes, IH, length_app. cbn. lia.
Qed.

(** X15. The counts of the averages table add up to the number of entries
    of the log: every entry is counted in exactly one row. *)
Theorem city_averages_counts_add_up :
  forall data : list entry,
    list_sum (map ar_count (city_averages data)) = List.length data.
Proof.
  intros data. unfold city_averages.
  rewrite (list_sum_perm _ (map ar_count (map average_row (group_by_city data)))).
  - rewrite map_map. cbn [average_row ar_count]. apply group_by_city_sizes.
  - apply Permutation_map. apply sort_by_perm.
Qed.

(** ** Rounding to one decimal *)

Ltac compare_to_order H :=
  match type of H with
  | (_ ?= _)%Q = Eq => apply Qeq_alt in H
  | (_ ?= _)%Q = Lt => apply Qlt_alt in H
  | (_ ?= _)%Q = Gt => apply Qgt_alt in H
  end.


Lemma round_half_even_mono (x y : Q) :
  (x <= y)%Q -> round_half_even x <= round_half_even y.
Proof.
  intros Hxy.
  pose proof (Qfloor_resp_le _ _ Hxy) as Hf.
  unfold round_half_even.
  destruct (Z.eq_dec (Qfloor x) (Qfloor y)) as [Heq|Hne].
  - rewrite <- Heq.
    destruct (x - inject_Z (Qfloor x) ?= 1 # 2)%Q eqn:Hcx;
    destruct (y - inject_Z (Qfloor x) ?= 1 # 2)%Q eqn:Hcy;
      compare_to_order Hcx; compare_to_order Hcy;
      destruct (Z.even (Qfloor x)); try lia; exfalso; lra.
  - assert (Qfloor x + 1 <= Qfloor y) by lia.
    destruct (x - inject_Z (Qfloor x) ?= 1 # 2)%Q;
    destruct (y - inject_Z (Qfloor y) ?= 1 # 2)%Q;
    destruct (Z.even (Qfloor x)); destruct (Z.even (Qfloor y)); lia.
Qed.

Lemma format_1f_mono (x y : Q) :
  (x <= y)%Q -> format_1f x <= format_1f y.
Proof.
  intros H. unfold format_1f. apply round_half_even_mono. lra.
Qed.


(** ** City averages: the order of the rows *)





(** ** Extremes, continued *)

Lemma first_max_greatest {A : Type} (key : A -> Q) (l : list A) (x : A) :
  first_max key l x -> In x l /\ forall y, In y l -> (key y <= key x)%Q.
Proof.
  intros (i & Hnth & Hall & _). split; [|exact Hall].
  apply nth_error_In with (n := i). exact Hnth.
Qed.

Lemma first_min_least {A : Type} (key : A -> Q) (l : list A) (x : A) :
  first_min key l x -> In x l /\ forall y, In y l -> (key x <= key y)%Q.
Proof.
  intros (i & Hnth & Hall & _). split; [|exact Hall].
  apply nth_error_In with (n := i). exact Hnth.
Qed.

Lemma last_day_incl (E : env) (data : list entry) :
  incl (last_day E data) data.
Proof. unfold last_day. intros e He. apply filter_In in He. tauto. Qed.

(** X17. The four extremes printed over a non-empty log are temperatures
    of the log and are ordered: the coldest overall is not above the
    hottest overall, and when the last 24 hours hold an observation, the
    two extremes of the last 24 hours are taken from these observations
    and lie between the overall ones. *)
Theorem extremes_are_ordered :
  forall (E : env) (w w1 : world) (data : list entry),
    load_data w = Ok data w1 ->
    data <> [] ->
    exists ho co h24 c24 : string * Z,
      get_extremes E w = Ok tt (say w1 [Extremes ho co h24 c24]) /\
      (exists e, In e data /\ ho = shown_1f (city_temp e)) /\
      (exists e, In e data /\ co = shown_1f (city_temp e)) /\
      snd co <= snd ho /\
      (last_day E data <> [] ->
       (exists e, In e (last_day E data) /\ h24 = shown_1f (city_temp e)) /\
       (exists e, In e (last_day E data) /\ c24 = shown_1f (city_temp e)) /\
       snd co <= snd c24 /\ snd c24 <= snd h24 /\ snd h24 <= snd ho).
Proof.
  intros E w w1 data Hload Hne.
  unfold get_extremes. rewrite (bind_ok _ _ _ _ _ Hload).
  destruct data as [|d data]; [contradiction|].
  cbn [map py_max py_min]. unfold bind at 1. cbn [ret]. unfold bind at 1. cbn [ret].
  fold (last_day E (d :: data)).
  set (all := city_temp d :: map city_temp data).
  change (city_temp d :: map city_temp data) with all.
  destruct (first_max_greatest snd all _ (max_from_first_max snd (city_temp d)
                                            (map city_temp data))) as (Hho & Hmax).
  destruct (first_min_least snd all _ (min_from_first_min snd (city_temp d)
                                         (map city_temp data))) as (Hco & Hmin).
  fold all in Hho, Hco.
  set (ho := max_from snd (city_temp d) (map city_temp data)) in *.
  set (co := min_from snd (city_temp d) (map city_temp data)) in *.
  assert (Hin : forall x, In x all -> exists e, In e (d :: data) /\ x = city_temp e).
  { intros x Hx. change all with (map city_temp (d :: data)) in Hx.
    apply in_map_iff in Hx. destruct Hx as (e & <- & He). eauto. }
  assert (Hshown : forall x, In x all ->
            exists e, In e (d :: data) /\ shown_1f x = shown_1f (city_temp e)).
  { intros x Hx. destruct (Hin x Hx) as (e & He & ->). eauto. }
  destruct (last_day E (d :: data)) as [|r recent] eqn:Hrecent.
  - cbn [map]. unfold bind, ret, print. cbn [fst snd].
    do 4 eexists. split; [reflexivity|].
    split; [apply Hshown; exact Hho|]. split; [apply Hshown; exact Hco|].
    split; [apply format_1f_mono; apply Hmax; exact Hco|].
    intros Hcontra. contradiction.
  - cbn [map py_max py_min]. unfold bind, ret, print. cbn [fst snd].
    set (rec := city_temp r :: map city_temp recent).
    destruct (first_max_greatest snd rec _ (max_from_first_max snd (city_temp r)
                                              (map city_temp recent))) as (Hh & Hmax').
    destruct (first_min_least snd rec _ (min_from_first_min snd (city_temp r)
                                           (map city_temp recent))) as (Hc & Hmin').
    fold rec in Hh, Hc.
    set (h24 := max_from snd (city_temp r) (map city_temp recent)) in *.
    set (c24 := min_from snd (city_temp r) (map city_temp recent)) in *.
    assert (Hrec : forall x, In x rec ->
              exists e, In e (r :: recent) /\ x = city_temp e).
    { intros x Hx. change rec with (map city_temp (r :: recent)) in Hx.
      apply in_map_iff in Hx. destruct Hx as (e & <- & He). eauto. }
    assert (Hsub : forall x, In x rec -> In x all).
    { intros x Hx. destruct (Hrec x Hx) as (e & He & ->).
      change all with (map city_temp (d :: data)). apply in_map.
      apply (last_day_incl E). rewrite Hrecent. exact He. }
    do 4 eexists. split; [reflexivity|].
    split; [apply Hshown; exact Hho|]. split; [apply Hshown; exact Hco|].
    split; [apply format_1f_mono; apply Hmax; exact Hco|].
    intros _.
    split; [destruct (Hrec _ Hh) as (e & He & ->); eauto|].
    split; [destruct (Hrec _ Hc) as (e & He & ->); eauto|].
    split; [apply format_1f_mono; apply Hmin; apply Hsub; exact Hc|].
    split; [apply format_1f_mono; apply Hmax'; exact Hc|].
    apply format_1f_mono. apply Hmax. apply Hsub. exact Hh.
Qed.

Lemma extremes_are_ordered_witness :
  load_data (mkWorld (Stored three_cities) [] [] []) =
    Ok three_cities (mkWorld (Stored three_cities) [] [] []) /\
  three_cities <> [] /\
  exists ho co h24 c24 : string * Z,
    get_extremes flaky_net (mkWorld (Stored three_cities) [] [] []) =
      Ok tt (say (mkWorld (Stored three_cities) [] [] [])
               [Extremes ho co h24 c24]) /\
    (exists e, In e three_cities /\ ho = shown_1f (city_temp e)) /\
    (exists e, In e three_cities /\ co = shown_1f (city_temp e)) /\
    snd co <= snd ho /\
    (last_day flaky_net three_cities <> [] ->
     (exists e, In e (last_day flaky_net three_cities) /\
                h24 = shown_1f (city_temp e)) /\
     (exists e, In e (last_day flaky_net three_cities) /\
                c24 = shown_1f (city_temp e)) /\
     snd co <= snd c24 /\ snd c24 <= snd h24 /\ snd h24 <= snd ho).
Proof.
  split; [reflexivity|]. split; [discriminate|].
  apply (extremes_are_ordered flaky_net (mkWorld (Stored three_cities) [] [] [])
           (mkWorld (Stored three_cities) [] [] []) three_cities).
  - reflexivity.
  - discriminate.
Defined.

(** ** Trend, continued *)



(** ** The command line *)

Example parse_cities_sample :
  parse_cities " Paris, New York ,,Oslo " =
  ["Paris"; "New York"; ""; "Oslo"]%string.
Proof. reflexivity. Qed.

Lemma split_nonempty (sep : ascii) (s : string) : split sep s <> [].
Proof.
  destruct s as [|a s]; cbn; [discriminate|].
  destruct (Ascii.eqb a sep); [discriminate|].
  destruct (split sep s); discriminate.
Qed.

Lemma split_length (sep : ascii) (s : string) :
  List.length (split sep s) = S (count_char sep s).
Proof.
  induction s as [|a s IH]; cbn [split count_char]; [reflexivity|].
  destruct (Ascii.eqb a sep); cbn [List.length]; [now rewrite IH|].
  destruct (split sep s) as [|p ps] eqn:Hs; [destruct (split_nonempty _ _ Hs)|].
  cbn [List.length] in *. exact IH.
Qed.

Lemma split_no_sep (sep : ascii) (s : string) :
  Forall (fun p => count_char sep p = O) (split sep s).
Proof.
  induction s as [|a s IH]; cbn [split].
  - repeat constructor.
  - destruct (Ascii.eqb a sep) eqn:Ha.
    + constructor; [reflexivity | exact IH].
    + destruct (split sep s) as [|p ps]; [repeat constructor; cbn; now rewrite Ha|].
      inversion IH; subst. constructor; [|assumption].
      cbn. rewrite Ha. assumption.
Qed.

Lemma lstrip_suffix_count (c : ascii) (s : string) :
  (count_char c (lstrip s) <= count_char c s)%nat.
Proof.
  induction s as [|a s IH]; cbn [lstrip]; [lia|].
  destruct (is_space a); cbn [count_char]; lia.
Qed.

Lemma rstrip_count (c : ascii) (s : string) :
  (count_char c (rstrip s) <= count_char c s)%nat.
Proof.
  induction s as [|a s IH]; cbn [rstrip]; [lia|].
  destruct (rstrip s) as [|b kept].
  - destruct (is_space a); cbn [count_char] in *; lia.
  - cbn [count_char] in *. lia.
Qed.

Lemma lstrip_first (s : string) (a : ascii) :
  first_char (lstrip s) = Some a -> is_space a = false.
Proof.
  induction s as [|b s IH]; cbn [lstrip]; [discriminate|].
  destruct (is_space b) eqn:Hb; [exact IH|].
  cbn. intros H. inversion H; subst. exact Hb.
Qed.

Lemma rstrip_first (s : string) (a : ascii) :
  (forall b, first_char s = Some b -> is_space b = false) ->
  first_char (rstrip s) = Some a -> is_space a = false.
Proof.
  destruct s as [|b s]; cbn [rstrip]; [discriminate|].
  intros Hb. specialize (Hb b eq_refl).
  destruct (rstrip s); rewrite ?Hb; cbn; intros H; inversion H; subst; exact Hb.
Qed.

Lemma rstrip_last (s : string) (a : ascii) :
  last_char (rstrip s) = Some a -> is_space a = false.
Proof.
  induction s as [|b s IH]; cbn [rstrip]; [discriminate|].
  destruct (rstrip s) as [|c kept].
  - destruct (is_space b) eqn:Hb; cbn; [discriminate|].
    intros H. inversion H; subst. exact Hb.
  - cbn [last_char]. exact IH.
Qed.

Lemma strip_trimmed (s : string) : trimmed (strip s).
Proof.
  unfold trimmed, strip. split.
  - intros a. apply rstrip_first. apply lstrip_first.
  - intros a. apply rstrip_last.
Qed.

(** X19. The list of cities read from the command line has one name more
    than the text has commas, an empty piece giving the empty name; no
    name holds a comma, and none begins or ends with white space. *)
Theorem parse_cities_names :
  forall arg : string,
    List.length (parse_cities arg) = S (count_char "," arg) /\
    Forall (fun name => count_char "," name = O /\ trimmed name)
           (parse_cities arg).
Proof.
  intros arg. unfold parse_cities. split.
  - rewrite length_map. apply split_length.
  - apply Forall_map. eapply Forall_impl; [|apply split_no_sep].
    intros p Hp. cbn beta in Hp |- *. split; [|apply strip_trimmed].
    unfold strip.
    pose proof (rstrip_count "," (lstrip p)).
    pose proof (lstrip_suffix_count "," p). lia.
Qed.









(** ** The export to SQLite *)

Lemma entry_of_inserted (db_clock : Z -> datetime) (t : table) (e : entry) :
  map entry_of (rows (insert_entry db_clock t e)) = map entry_of (rows t) ++ [e].
Proof.
  unfold insert_entry. cbn [rows]. rewrite map_app. cbn. now destruct e.
Qed.

Lemma insert_all_rows (db_clock : Z -> datetime) (data : list entry) (t : table) :
  let t' := fold_left (insert_entry db_clock) data t in
  (exists added, rows t' = rows t ++ added /\ map entry_of added = data /\
                 map id added =
                   map (fun k => last_id t + 1 + Z.of_nat k)
                       (seq 0 (List.length data))) /\
  last_id t' = last_id t + Z.of_nat (List.length data).
Proof.
  revert t. induction data as [|e data IH]; intros t; cbn [fold_left].
  - cbn. split; [|lia]. exists []. rewrite app_nil_r. auto.
  - destruct (IH (insert_entry db_clock t e)) as ((added & Hrows & Hent & Hids) & Hlast).
    cbv zeta. split.
    + eexists (_ :: added). rewrite Hrows. unfold insert_entry at 1. cbn [rows].
      rewrite <- app_assoc. split; [reflexivity|]. split.
      * cbn [map entry_of db_city db_temperature db_description db_humidity
               db_utc_timestamp db_local_timestamp]. rewrite Hent. now destruct e.
      * cbn [map id List.length seq]. rewrite Hids. f_equal; [lia|].
        rewrite <- seq_shift, map_map. apply map_ext. intros k.
        cbn [insert_entry last_id]. lia.
    + rewrite Hlast. cbn [insert_entry last_id List.length]. lia.
Qed.

(** X22. An export adds to the table one row for each entry of the log,
    after the rows that are there and in the order of the log, each
    holding the six values of its entry under the next free id; over an
    empty log it leaves the table as it is.  The data file is not
    touched. *)
Theorem export_to_sqlite_appends_log :
  forall (db_clock : Z -> datetime) (t : table) (w w1 : world)
         (data : list entry),
    load_data w = Ok data w1 ->
    exists t' line added,
      export_to_sqlite db_clock t w = Ok (t', line) w1 /\
      same_store w w1 /\
      rows t' = rows t ++ added /\
      map entry_of added = data /\
      map id added =
        map (fun k => last_id t + 1 + Z.of_nat k) (seq 0 (List.length data)) /\
      (line = NoDataToExport <-> data = []).
Proof.
  intros db_clock t w w1 data Hload.
  pose proof (load_data_same_store w) as Hsame. rewrite Hload in Hsame.
  unfold export_to_sqlite. rewrite (bind_ok _ _ _ _ _ Hload).
  destruct data as [|e data].
  - exists t, NoDataToExport, []. rewrite app_nil_r. cbn. tauto.
  - destruct (insert_all_rows db_clock (e :: data) t)
      as ((added & Hrows & Hent & Hids) & _).
    eexists. exists DataExported, added.
    split; [reflexivity|]. split; [exact Hsame|].
    repeat split; auto; discriminate.
Qed.

Lemma export_to_sqlite_appends_log_witness :
  load_data (mkWorld (Stored oslo_lima) [] [] []) =
    Ok oslo_lima (mkWorld (Stored oslo_lima) [] [] []) /\
  exists t' line added,
    export_to_sqlite (fun k => k) (init_database None)
        (mkWorld (Stored oslo_lima) [] [] []) =
      Ok (t', line) (mkWorld (Stored oslo_lima) [] [] []) /\
    same_store (mkWorld (Stored oslo_lima) [] [] [])
               (mkWorld (Stored oslo_lima) [] [] []) /\
    rows t' = rows (init_database None) ++ added /\
    map entry_of added = oslo_lima /\
    map id added =
      map (fun k => last_id (init_database None) + 1 + Z.of_nat k)
          (seq 0 (List.length oslo_lima)) /\
    (line = NoDataToExport <-> oslo_lima = []).
Proof.
  split; [reflexivity|].
  apply (export_to_sqlite_appends_log (fun k => k) (init_database None)
           (mkWorld (Stored oslo_lima) [] [] [])
           (mkWorld (Stored oslo_lima) [] [] []) oslo_lima).
  reflexivity.
Defined.

(** X23. The export does not look for rows that are already there: two
    exports of the same log leave every entry of it in the table twice. *)
Theorem export_to_sqlite_twice_duplicates :
  forall (db_clock : Z -> datetime) (t : table) (w w1 : world)
         (data : list entry),
    load_data w = Ok data w1 ->
    exists t1 line1 t2 line2 w2,
      export_to_sqlite db_clock t w = Ok (t1, line1) w1 /\
      export_to_sqlite db_clock t1 w1 = Ok (t2, line2) w2 /\
      map entry_of (rows t2) = map entry_of (rows t) ++ data ++ data.
Proof.
  intros db_clock t w w1 data Hload.
  assert (Hagain : load_data w1 = Ok data (say w1 (load_warning (file w1)))).
  { apply load_data_returns.
    pose proof (load_data_same_store w) as Hsame. rewrite Hload in Hsame.
    destruct Hsame as (Hf & _). cbn [final] in Hf. rewrite Hf.
    apply (load_data_inv _ _ _ Hload). }
  unfold export_to_sqlite.
  destruct data as [|e data].
  - exists t, NoDataToExport, t, NoDataToExport. eexists.
    rewrite (bind_ok _ _ _ _ _ Hload), (bind_ok _ _ _ _ _ Hagain).
    split; [reflexivity|]. split; [reflexivity|].
    now rewrite app_nil_r.
  - set (t1 := fold_left (insert_entry db_clock) (e :: data) t).
    destruct (insert_all_rows db_clock (e :: data) t)
      as ((added1 & Hrows1 & Hent1 & _) & _).
    destruct (insert_all_rows db_clock (e :: data) t1)
      as ((added2 & Hrows2 & Hent2 & _) & _).
    exists t1, DataExported,
           (fold_left (insert_entry db_clock) (e :: data) t1), DataExported.
    eexists.
    rewrite (bind_ok _ _ _ _ _ Hload), (bind_ok _ _ _ _ _ Hagain).
    split; [reflexivity|]. split; [reflexivity|].
    cbv zeta in *. fold t1 in Hrows1. rewrite Hrows2, Hrows1, !map_app.
    rewrite Hent1, Hent2, <- app_assoc. reflexivity.
Qed.

Lemma export_to_sqlite_twice_duplicates_witness :
  load_data (mkWorld (Stored oslo_lima) [] [] []) =
    Ok oslo_lima (mkWorld (Stored oslo_lima) [] [] []) /\
  exists t1 line1 t2 line2 w2,
    export_to_sqlite (fun k => k) (init_database None)
        (mkWorld (Stored oslo_lima) [] [] []) =
      Ok (t1, line1) (mkWorld (Stored oslo_lima) [] [] []) /\
    export_to_sqlite (fun k => k) t1 (mkWorld (Stored oslo_lima) [] [] []) =
      Ok (t2, line2) w2 /\
    map entry_of (rows t2) =
      map entry_of (rows (init_database None)) ++ oslo_lima ++ oslo_lima.
Proof.
  split; [reflexivity|].
  apply (export_to_sqlite_twice_duplicates (fun k => k) (init_database None)
           (mkWorld (Stored oslo_lima) [] [] [])
           (mkWorld (Stored oslo_lima) [] [] []) oslo_lima).
  reflexivity.
Defined.

Lemma ids_grow_snoc (l : list db_row) (below last : Z) (r : db_row) :
  ids_grow below l ->
  Forall (fun x => id x <= last) l ->
  below <= last ->
  id r = last + 1 ->
  ids_grow below (l ++ [r]).
Proof.
  revert below. induction l as [|x l IH]; intros below Hg Hall Hb Hr; cbn in *.
  - split; [lia | exact I].
  - destruct Hg as (Hx & Hg). inversion Hall; subst.
    split; [exact Hx|]. apply IH; auto.
Qed.

Lemma insert_entry_ok (db_clock : Z -> datetime) (t : table) (e : entry) :
  table_ok t -> 0 <= last_id t -> 
  table_ok (insert_entry db_clock t e) /\ 0 <= last_id (insert_entry db_clock t e).
Proof.
  intros (Hg & Hall) Hpos. unfold table_ok, insert_entry. cbn [rows last_id].
  split; [split|lia].
  - apply (ids_grow_snoc _ 0 (last_id t)); auto.
  - apply Forall_app. split.
    + eapply Forall_impl; [|exact Hall]. cbn beta. intros x Hx. lia.
    + repeat constructor. cbn. lia.
Qed.

Lemma ids_grow_bound (l : list db_row) (below : Z) :
  ids_grow below l -> Forall (fun r => below < id r) l.
Proof.
  revert below. induction l as [|x l IH]; intros below Hg; [constructor|].
  destruct Hg as (Hx & Hg). constructor; [exact Hx|].
  eapply Forall_impl; [|apply (IH _ Hg)]. cbn beta. intros r Hr. lia.
Qed.

Lemma ids_grow_nodup (l : list db_row) (below : Z) :
  ids_grow below l -> NoDup (map id l).
Proof.
  revert below. induction l as [|x l IH]; intros below Hg; cbn; [constructor|].
  destruct Hg as (_ & Hg). constructor; [|apply (IH _ Hg)].
  intros Hin. apply in_map_iff in Hin. destruct Hin as (r & Hr & Hin).
  pose proof (ids_grow_bound _ _ Hg) as Hb. rewrite Forall_forall in Hb.
  specialize (Hb r Hin). lia.
Qed.

(** X24. Over the table as the constructor makes it and as exports leave
    it, an export keeps the ids in order: in the table it returns the
    ids are positive, grow from row to row and are all different, so that
    an insert never meets an id that is taken. *)
Theorem export_to_sqlite_keeps_ids :
  forall (db_clock : Z -> datetime) (t : table) (w w1 : world)
         (data : list entry),
    table_ok t -> 0 <= last_id t ->
    load_data w = Ok data w1 ->
    exists t' line,
      export_to_sqlite db_clock t w = Ok (t', line) w1 /\
      table_ok t' /\ 0 <= last_id t' /\
      NoDup (map id (rows t')).
Proof.
  intros db_clock t w w1 data Hok Hpos Hload.
  unfold export_to_sqlite. rewrite (bind_ok _ _ _ _ _ Hload).
  assert (Hfold : forall l t0, table_ok t0 -> 0 <= last_id t0 ->
            table_ok (fold_left (insert_entry db_clock) l t0) /\
            0 <= last_id (fold_left (insert_entry db_clock) l t0)).
  { induction l as [|e l IH]; intros t0 H0 H1; cbn [fold_left]; [auto|].
    destruct (insert_entry_ok db_clock t0 e H0 H1). apply IH; assumption. }
  destruct data as [|e data].
  - exists t, NoDataToExport. repeat split; try apply Hok; auto.
    apply (ids_grow_nodup _ 0). apply Hok.
  - destruct (Hfold (e :: data) t Hok Hpos) as (Hok' & Hpos').
    eexists. exists DataExported. split; [reflexivity|].
    repeat split; try apply Hok'; auto.
    apply (ids_grow_nodup _ 0). apply Hok'.
Qed.

Lemma export_to_sqlite_keeps_ids_witness :
  table_ok (init_database None) /\ 0 <= last_id (init_database None) /\
  load_data (mkWorld (Stored oslo_lima) [] [] []) =
    Ok oslo_lima (mkWorld (Stored oslo_lima) [] [] []) /\
  exists t' line,
    export_to_sqlite (fun k => k) (init_database None)
        (mkWorld (Stored oslo_lima) [] [] []) =
      Ok (t', line) (mkWorld (Stored oslo_lima) [] [] []) /\
    table_ok t' /\ 0 <= last_id t' /\
    NoDup (map id (rows t')).
Proof.
  assert (Hok : table_ok (init_database None)) by (split; [exact I | constructor]).
  split; [exact Hok|]. split; [cbn; lia|]. split; [reflexivity|].
  apply (export_to_sqlite_keeps_ids (fun k => k) (init_database None)
           (mkWorld (Stored oslo_lima) [] [] [])
           (mkWorld (Stored oslo_lima) [] [] []) oslo_lima Hok).
  - cbn. lia.
  - reflexivity.
Defined.

(** ** The command line and the scheduler over the run *)



Lemma scheduled_fetch_runs (E : env) (cities : list string) (w : world)
    (data : list entry) :
  stored_log (file w) = Some data ->
  exists w' new,
    scheduled_fetch E cities w = Ok tt w' /\
    stored_log (file w') = Some (data ++ new) /\
    requests w' = requests w ++ cities /\
    (List.length (saves w') <= S (List.length (saves w)))%nat.
Proof.
  intros Hfile. rewrite scheduled_fetch_is_forced.
  set (w0 := say w [ScheduledFetch (now E)]).
  assert (Hfile0 : stored_log (file w0) = Some data) by exact Hfile.
  exists (run_world E cities true w0 data),
         (new_observations E cities true w0 data).
  split; [apply fetch_and_log_weather_runs; exact Hfile0|].
  split; [apply run_world_log; exact Hfile0|].
  split.
  - rewrite run_world_requests.
    destruct (selected_forced E data cities) as (-> & _). reflexivity.
  - destruct (run_world_store E cities true w0 data) as [(Hs & _)|(Hs & _)];
      cbv zeta in Hs; rewrite Hs; cbn [w0 say saves]; rewrite ?length_app; cbn; lia.
Qed.

(** X25. The scheduler only adds: started over a data file that loads,
    its fetches all complete, every one of them requests every city, so
    that the jobs that fell due have sent that many times the cities in
    all, each has written the data file at most once, and the log loaded
    afterwards begins with the log of before. *)
Theorem scheduler_only_adds :
  forall (cities : list string) (due : list env) (w w1 : world)
         (data : list entry),
    load_data w = Ok data w1 ->
    exists w' w2 added,
      run_pending cities due w = Ok tt w' /\
      requests w' = requests w ++ List.concat (map (fun _ => cities) due) /\
      (List.length (saves w') <= List.length (saves w) + List.length due)%nat /\
      load_data w' = Ok (data ++ added) w2.
Proof.
  intros cities due w w1 data Hload.
  apply load_data_inv in Hload. destruct Hload as (Hfile & _). clear w1.
  assert (H : exists w' added,
             run_pending cities due w = Ok tt w' /\
             requests w' = requests w ++ List.concat (map (fun _ => cities) due) /\
             (List.length (saves w') <= List.length (saves w) + List.length due)%nat /\
             stored_log (file w') = Some (data ++ added)).
  { revert w data Hfile. induction due as [|E due IH]; intros w data Hfile.
    - exists w, []. cbn. rewrite !app_nil_r. repeat split; auto. lia.
    - destruct (scheduled_fetch_runs E cities w data Hfile)
        as (w1 & new & Hrun & Hfile1 & Hreq1 & Hsaves1).
      destruct (IH w1 (data ++ new) Hfile1)
        as (w' & added & Hrest & Hreq & Hsaves & Hfile').
      exists w', (new ++ added).
      cbn [run_pending map List.concat List.length].
      rewrite (bind_ok _ _ _ _ _ Hrun).
      split; [exact Hrest|].
      split; [rewrite Hreq, Hreq1, <- app_assoc; reflexivity|].
      split; [lia|]. rewrite Hfile', <- app_assoc. reflexivity. }
  destruct H as (w' & added & Hrun & Hreq & Hsaves & Hfile').
  exists w', (say w' (load_warning (file w'))), added.
  repeat split; auto. apply load_data_returns. exact Hfile'.
Qed.

Lemma scheduler_only_adds_witness :
  load_data fresh_world = Ok [] fresh_world /\
  exists w' w2 added,
    run_pending ["Paris"; "Oslo"]%string [flaky_net; dead_net] fresh_world
      = Ok tt w' /\
    requests w' =
      requests fresh_world ++
      List.concat (map (fun _ => ["Paris"; "Oslo"]%string) [flaky_net; dead_net]) /\
    (List.length (saves w') <=
     List.length (saves fresh_world) + List.length [flaky_net; dead_net])%nat /\
    load_data w' = Ok ([] ++ added) w2.
Proof.
  split; [reflexivity|].
  apply (scheduler_only_adds ["Paris"; "Oslo"]%string [flaky_net; dead_net]
           fresh_world fresh_world []).
  reflexivity.
Defined.

(** X26. A run writes the data file exactly when it has a location to
    fetch: with nothing to fetch it leaves the file and its writes as they
    are, and with something to fetch it writes once, the loaded log
    followed by what was obtained, also when every fetch failed; over a
    file that was missing or was not JSON the written list then holds the
    new observations only. *)
Theorem run_writes_iff_tasks :
  forall (E : env) (cities : list string) (force_update : bool)
         (w w1 : world) (data : list entry),
    load_data w = Ok data w1 ->
    exists w',
      fetch_and_log_weather E cities force_update w = Ok tt w' /\
      let new := new_observations E cities force_update w data in
      match selected E force_update data cities with
      | [] => saves w' = saves w /\ file w' = file w
      | _ => saves w' = saves w ++ [data ++ new] /\
             file w' = Stored (data ++ new)
      end /\
      (file w = Absent \/ file w = NotJSON -> data = []).
Proof.
  intros E cities force_update w w1 data Hload.
  apply load_data_inv in Hload. destruct Hload as (Hfile & _).
  exists (run_world E cities force_update w data).
  split; [apply fetch_and_log_weather_runs; exact Hfile|].
  cbv zeta. split.
  - unfold run_world, new_observations.
    destruct (selected E force_update data cities); cbn; auto.
  - intros [Hf|Hf]; rewrite Hf in Hfile; cbn in Hfile; congruence.
Qed.

Lemma run_writes_iff_tasks_witness :
  load_data (mkWorld NotJSON [] [] []) =
    Ok [] (mkWorld NotJSON [] [] [CorruptedWarning]) /\
  exists w',
    fetch_and_log_weather dead_net ["Paris"%string] false
        (mkWorld NotJSON [] [] []) = Ok tt w' /\
    let new := new_observations dead_net ["Paris"%string] false
                                (mkWorld NotJSON [] [] []) [] in
    match selected dead_net false [] ["Paris"%string] with
    | [] => saves w' = [] /\ file w' = NotJSON
    | _ => saves w' = [] ++ [[] ++ new] /\ file w' = Stored ([] ++ new)
    end /\
    (NotJSON = Absent \/ NotJSON = NotJSON -> @nil entry = []).
Proof.
  split; [reflexivity|].
  apply (run_writes_iff_tasks dead_net ["Paris"%string] false
           (mkWorld NotJSON [] [] [])
           (mkWorld NotJSON [] [] [CorruptedWarning]) []).
  reflexivity.
Defined.
